(** * The offline submission queue of [src/components/form-layout.tsx]

    A shallow embedding of the [FormLayout] React component: its six state
    hooks, the closures it defines on every render (which capture the hook
    values of that render), [localStorage], the console, the clock read
    by [Date.now()] and the timer queue behind [setTimeout].

    Conventions.
    - A JavaScript string is a [string]; every [ascii] stands for the code
      unit with the same number (code units 0..255).
    - [Date.now()] is an [N] (milliseconds); [n.toString()] is [pretty n],
      the decimal digits of [n].
    - The value kept in [localStorage] under the key ['offlineSubmissions']
      is the list that [JSON.stringify] was given: on these records
      [JSON.parse] undoes [JSON.stringify].
    - A closure handed to [setTimeout], and the rest of an async function
      after an [await], is a constructor of [Callback] that carries the
      variables the closure captured; [run_callback] is its body. *)

From stdpp Require Import base strings gmap list pretty.
From Stdlib Require Import NArith Ascii String.

Local Open Scope string_scope.
Local Open Scope N_scope.
Local Open Scope list_scope.

(** ** JavaScript strings: white space, [trim], and regular expressions *)

(** The members of [\s] (WhiteSpace and LineTerminator) below 256: TAB, LF,
    VT, FF, CR, SP and NBSP. [String.prototype.trim] strips the same set. *)
Definition is_white (c : ascii) : bool :=
  match N_of_ascii c with
  | 9 | 10 | 11 | 12 | 13 | 32 | 160 => true
  | _ => false
  end.

Fixpoint trimStart (s : string) : string :=
  match s with
  | "" => ""
  | String c s' => if is_white c then trimStart s' else s
  end.

Fixpoint trimEnd (s : string) : string :=
  match s with
  | "" => ""
  | String c s' =>
      match trimEnd s' with
      | "" => if is_white c then "" else String c ""
      | t => String c t
      end
  end.

Definition trim (s : string) : string := trimEnd (trimStart s).

(** [!s] on a string: only the empty string is falsy. *)
Definition falsy (s : string) : bool :=
  match s with "" => true | _ => false end.

(** Regular expressions, as far as the component's one literal needs them. *)
Inductive RegExp : Type :=
| Never
| Epsilon
| CharClass (p : ascii → bool)
| Concat (r1 r2 : RegExp)
| Union (r1 r2 : RegExp)
| Kleene (r : RegExp).

(** [r+] *)
Definition Plus (r : RegExp) : RegExp := Concat r (Kleene r).

Fixpoint nullable (r : RegExp) : bool :=
  match r with
  | Never => false
  | Epsilon => true
  | CharClass _ => false
  | Concat r1 r2 => nullable r1 && nullable r2
  | Union r1 r2 => nullable r1 || nullable r2
  | Kleene _ => true
  end.

Fixpoint derive (c : ascii) (r : RegExp) : RegExp :=
  match r with
  | Never => Never
  | Epsilon => Never
  | CharClass p => if p c then Epsilon else Never
  | Concat r1 r2 =>
      if nullable r1
      then Union (Concat (derive c r1) r2) (derive c r2)
      else Concat (derive c r1) r2
  | Union r1 r2 => Union (derive c r1) (derive c r2)
  | Kleene r' => Concat (derive c r') (Kleene r')
  end.

(** [/^r$/.test(s)]: the whole of [s] is matched by [r]. *)
Fixpoint test (r : RegExp) (s : string) : bool :=
  match s with
  | "" => nullable r
  | String c s' => test (derive c r) s'
  end.

(** [[^\s@]] *)
Definition not_space_at (c : ascii) : bool :=
  negb (is_white c) && negb (Ascii.eqb c "@").

Definition literal (a : ascii) : RegExp := CharClass (Ascii.eqb a).

(** [/^[^\s@]+@[^\s@]+\.[^\s@]+$/] *)
Definition emailPattern : RegExp :=
  Concat (Plus (CharClass not_space_at))
    (Concat (literal "@")
       (Concat (Plus (CharClass not_space_at))
          (Concat (literal ".") (Plus (CharClass not_space_at))))).

(** ** Data model (the interfaces at the top of the file) *)

Record FormData : Type := mkFormData {
  firstName : string;
  lastName : string;
  email : string;
  address : string;
  city : string;
  state : string;
  postalCode : string
}.

(** [interface FormErrors { [key: string]: string }] *)
Abbreviation FormErrors := (gmap string string).

Inductive ToastType : Type := success | error | info | offline.

Module Toast.
Record t : Type := mk { id : string; type : ToastType; message : string }.
End Toast.

Inductive Status : Type := pending | syncing | synced | failed.

Module OfflineSubmission.
Record t : Type := mk {
  id : string;
  data : FormData;
  timestamp : N;
  status : Status
}.
(** [{ ...s, status: st }] *)
Definition with_status (st : Status) (s : t) : t :=
  mk (id s) (data s) (timestamp s) st.
End OfflineSubmission.

Global Instance ToastType_eq_dec : EqDecision ToastType.
Proof. solve_decision. Defined.

Global Instance Status_eq_dec : EqDecision Status.
Proof. solve_decision. Defined.

(** The form as [useState] initialises it, and as every reset writes it. *)
Definition emptyForm : FormData := mkFormData "" "" "" "" "" "" "".

(** The values of the six [useState] hooks. A render hands its closures
    one such record; the component's current state is another. *)
Record Hooks : Type := mkHooks {
  formData : FormData;
  errors : FormErrors;
  isSubmitting : bool;
  toasts : list Toast.t;
  isOnline : bool;
  offlineSubmissions : list OfflineSubmission.t
}.

Definition initialHooks : Hooks := mkHooks emptyForm ∅ false [] true [].

(** What a timer runs when it fires. *)
Inductive Callback : Type :=
| ExpireToast (id : string)
| ResumeSync (render : Hooks) (submission : OfflineSubmission.t)
    (rest : list OfflineSubmission.t)
| PurgeSynced (render : Hooks)
| ResumeSubmit (render : Hooks).

Record Timer : Type := mkTimer { due : N; callback : Callback }.

(** Everything a closure of the component can read or write. [apiCalls]
    is the only field with no counterpart in the browser: the stand-in
    for the remote call is a bare delay, and [apiCalls] keeps the id of the
    submission each such delay was started for. [randomGt03 k] is the
    outcome of the [k]-th evaluation of [Math.random() > 0.3]. *)
Record World : Type := mkWorld {
  hooks : Hooks;
  localStorage : option (list OfflineSubmission.t);
  quotaExceeded : bool;
  console : list string;
  now : N;
  onLine : bool;
  timers : list Timer;
  apiCalls : list string;
  randomGt03 : nat → bool;
  draws : nat
}.

(** ** Computations: state passing with exceptions *)

Inductive Completion (A : Type) : Type :=
| Normal (a : A)
| Throw (e : string).
Arguments Normal {A} a.
Arguments Throw {A} e.

Definition M (A : Type) : Type := World → Completion A * World.

Global Instance M_ret : MRet M := λ A a w, (Normal a, w).

Global Instance M_bind : MBind M := λ A B f m w,
  match m w with
  | (Normal a, w') => f a w'
  | (Throw e, w') => (Throw e, w')
  end.

(** [try { body } catch (error) { handler }] *)
Definition try_catch {A : Type} (body : M A) (handler : string → M A) : M A :=
  λ w,
    match body w with
    | (Throw e, w') => handler e w'
    | done => done
    end.

(** The world a handler leaves behind. *)
Definition exec {A : Type} (m : M A) (w : World) : World := (m w).2.

Definition modify (f : World → World) : M unit := λ w, (Normal tt, f w).

Definition with_hooks (f : Hooks → Hooks) (w : World) : World :=
  mkWorld (f (hooks w)) (localStorage w) (quotaExceeded w) (console w)
    (now w) (onLine w) (timers w) (apiCalls w) (randomGt03 w) (draws w).

(** *** The setters of the six hooks *)

Definition setFormDataWith (f : FormData → FormData) : M unit :=
  modify (with_hooks (λ h, mkHooks (f (formData h)) (errors h)
    (isSubmitting h) (toasts h) (isOnline h) (offlineSubmissions h))).

Definition setFormData (v : FormData) : M unit := setFormDataWith (λ _, v).

Definition setErrorsWith (f : FormErrors → FormErrors) : M unit :=
  modify (with_hooks (λ h, mkHooks (formData h) (f (errors h))
    (isSubmitting h) (toasts h) (isOnline h) (offlineSubmissions h))).

Definition setErrors (v : FormErrors) : M unit := setErrorsWith (λ _, v).

Definition setIsSubmitting (v : bool) : M unit :=
  modify (with_hooks (λ h, mkHooks (formData h) (errors h)
    v (toasts h) (isOnline h) (offlineSubmissions h))).

Definition setToasts (f : list Toast.t → list Toast.t) : M unit :=
  modify (with_hooks (λ h, mkHooks (formData h) (errors h)
    (isSubmitting h) (f (toasts h)) (isOnline h) (offlineSubmissions h))).

Definition setIsOnline (v : bool) : M unit :=
  modify (with_hooks (λ h, mkHooks (formData h) (errors h)
    (isSubmitting h) (toasts h) v (offlineSubmissions h))).

Definition setOfflineSubmissions (v : list OfflineSubmission.t) : M unit :=
  modify (with_hooks (λ h, mkHooks (formData h) (errors h)
    (isSubmitting h) (toasts h) (isOnline h) v)).

(** *** The browser *)

Definition Date_now : M N := λ w, (Normal (now w), w).

Definition navigator_onLine : M bool := λ w, (Normal (onLine w), w).

(** [localStorage.setItem('offlineSubmissions', JSON.stringify(v))]; it
    throws when the storage refuses the write. *)
Definition localStorage_setItem (v : list OfflineSubmission.t) : M unit :=
  λ w,
    if quotaExceeded w then (Throw "QuotaExceededError", w)
    else (Normal tt,
          mkWorld (hooks w) (Some v) (quotaExceeded w) (console w) (now w)
            (onLine w) (timers w) (apiCalls w) (randomGt03 w) (draws w)).

Definition localStorage_getItem : M (option (list OfflineSubmission.t)) :=
  λ w, (Normal (localStorage w), w).

Definition console_error (msg : string) : M unit :=
  modify (λ w,
    mkWorld (hooks w) (localStorage w) (quotaExceeded w) (console w ++ [msg])
      (now w) (onLine w) (timers w) (apiCalls w) (randomGt03 w) (draws w)).

(** [setTimeout(cb, ms)] *)
Definition setTimeout (cb : Callback) (ms : N) : M unit :=
  modify (λ w,
    mkWorld (hooks w) (localStorage w) (quotaExceeded w) (console w) (now w)
      (onLine w) (timers w ++ [mkTimer (now w + ms) cb]) (apiCalls w)
      (randomGt03 w) (draws w)).

(** [Math.random() > 0.3] *)
Definition Math_random_gt_03 : M bool :=
  λ w, (Normal (randomGt03 w (draws w)),
        mkWorld (hooks w) (localStorage w) (quotaExceeded w) (console w)
          (now w) (onLine w) (timers w) (apiCalls w) (randomGt03 w)
          (S (draws w))).

(** The bookkeeping of [apiCalls]. *)
Definition record_api_call (id : string) : M unit :=
  modify (λ w,
    mkWorld (hooks w) (localStorage w) (quotaExceeded w) (console w) (now w)
      (onLine w) (timers w) (apiCalls w ++ [id]) (randomGt03 w) (draws w)).

(** ** The closures of one render

    Each takes [r], the hook values of the render that created it: where
    the source reads [offlineSubmissions], [formData], [errors] or
    [isOnline], it reads [r]. Writes go through the setters, to the
    current state. *)

Definition loadOfflineSubmissions : M unit :=
  try_catch
    (stored ← localStorage_getItem;
     match stored with
     | Some submissions => setOfflineSubmissions submissions
     | None => mret tt
     end)
    (λ _, console_error "Error loading offline submissions:").

Definition saveOfflineSubmissions (submissions : list OfflineSubmission.t)
  : M unit :=
  try_catch
    (localStorage_setItem submissions)
    (λ _, console_error "Error saving offline submissions:").

Definition addToast (type : ToastType) (message : string) : M unit :=
  t ← Date_now;
  let id := pretty t in
  let newToast := Toast.mk id type message in
  setToasts (λ prev, prev ++ [newToast]);;
  (* Auto remove toast after 5 seconds *)
  setTimeout (ExpireToast id) 5000.

(** The object [newErrors] that [validateForm] builds. *)
Definition newErrors (fd : FormData) : FormErrors :=
  let e0 : FormErrors := ∅ in
  let e1 :=
    if falsy (trim (firstName fd))
    then <["firstName" := "First name is required"]> e0 else e0 in
  let e2 :=
    if falsy (trim (lastName fd))
    then <["lastName" := "Last name is required"]> e1 else e1 in
  if falsy (trim (email fd))
  then <["email" := "Email is required"]> e2
  else if negb (test emailPattern (email fd))
  then <["email" := "Please enter a valid email"]> e2
  else e2.

Definition validateForm (r : Hooks) : M bool :=
  let newErrors := newErrors (formData r) in
  setErrors newErrors;;
  mret (bool_decide (size newErrors = 0%nat)).

(** [{ ...prev, [name]: value }]; the inputs carry the seven names below. *)
Definition set_field (name value : string) (prev : FormData) : FormData :=
  if decide (name = "firstName") then
    mkFormData value (lastName prev) (email prev) (address prev) (city prev)
      (state prev) (postalCode prev)
  else if decide (name = "lastName") then
    mkFormData (firstName prev) value (email prev) (address prev) (city prev)
      (state prev) (postalCode prev)
  else if decide (name = "email") then
    mkFormData (firstName prev) (lastName prev) value (address prev)
      (city prev) (state prev) (postalCode prev)
  else if decide (name = "address") then
    mkFormData (firstName prev) (lastName prev) (email prev) value (city prev)
      (state prev) (postalCode prev)
  else if decide (name = "city") then
    mkFormData (firstName prev) (lastName prev) (email prev) (address prev)
      value (state prev) (postalCode prev)
  else if decide (name = "state") then
    mkFormData (firstName prev) (lastName prev) (email prev) (address prev)
      (city prev) value (postalCode prev)
  else if decide (name = "postalCode") then
    mkFormData (firstName prev) (lastName prev) (email prev) (address prev)
      (city prev) (state prev) value
  else prev.

Definition handleInputChange (r : Hooks) (name value : string) : M unit :=
  setFormDataWith (set_field name value);;
  (* Clear error when user starts typing *)
  match errors r !! name with
  | Some msg => if falsy msg then mret tt else setErrorsWith (<[name := ""]>)
  | None => mret tt
  end.

Definition saveOfflineSubmission (r : Hooks) (data : FormData) : M string :=
  t1 ← Date_now;
  t2 ← Date_now;
  let submission := OfflineSubmission.mk (pretty t1) data t2 pending in
  let updatedSubmissions := offlineSubmissions r ++ [submission] in
  setOfflineSubmissions updatedSubmissions;;
  saveOfflineSubmissions updatedSubmissions;;
  mret (OfflineSubmission.id submission).

(** [l.map(s => s.id === id ? { ...s, status: st } : s)] *)
Definition mark (st : Status) (id : string) (l : list OfflineSubmission.t)
  : list OfflineSubmission.t :=
  map (λ s, if decide (OfflineSubmission.id s = id)
            then OfflineSubmission.with_status st s else s) l.

(** The [catch] block of the loop body. *)
Definition sync_failed (r : Hooks) (submission : OfflineSubmission.t)
  : M unit :=
  let failedSubmissions :=
    mark failed (OfflineSubmission.id submission) (offlineSubmissions r) in
  setOfflineSubmissions failedSubmissions;;
  saveOfflineSubmissions failedSubmissions;;
  addToast error "Failed to sync offline submission".

(** The [for] loop of [syncOfflineSubmissions], from the iteration for the
    head of [pendingSubmissions] up to its [await]; past the last
    iteration, the [setTimeout] that follows the loop. *)
Fixpoint sync_loop (r : Hooks) (pendingSubmissions : list OfflineSubmission.t)
  : M unit :=
  match pendingSubmissions with
  | [] =>
      (* Remove synced submissions after a delay *)
      setTimeout (PurgeSynced r) 3000
  | submission :: rest =>
      try_catch
        ((* Update status to syncing *)
         let updatedSubmissions :=
           mark syncing (OfflineSubmission.id submission)
             (offlineSubmissions r) in
         setOfflineSubmissions updatedSubmissions;;
         saveOfflineSubmissions updatedSubmissions;;
         (* Simulate API call *)
         record_api_call (OfflineSubmission.id submission);;
         setTimeout (ResumeSync r submission rest) 1000)
        (λ _, sync_failed r submission;; sync_loop r rest)
  end.

(** The iteration for [submission] after its [await], then the rest of the
    loop. *)
Definition sync_resume (r : Hooks) (submission : OfflineSubmission.t)
  (rest : list OfflineSubmission.t) : M unit :=
  try_catch
    ((* Update status to synced *)
     let finalSubmissions :=
       mark synced (OfflineSubmission.id submission) (offlineSubmissions r) in
     setOfflineSubmissions finalSubmissions;;
     saveOfflineSubmissions finalSubmissions;;
     addToast success "Offline submission synced successfully!")
    (λ _, sync_failed r submission);;
  sync_loop r rest.

(** The callback of the [setTimeout] after the loop. *)
Definition sync_purge (r : Hooks) : M unit :=
  let remainingSubmissions :=
    filter (λ s, OfflineSubmission.status s ≠ synced) (offlineSubmissions r) in
  setOfflineSubmissions remainingSubmissions;;
  saveOfflineSubmissions remainingSubmissions.

Definition syncOfflineSubmissions (r : Hooks) : M unit :=
  let pendingSubmissions :=
    filter (λ s, OfflineSubmission.status s = pending) (offlineSubmissions r) in
  if decide (List.length pendingSubmissions = 0%nat) then mret tt
  else
    addToast info
      ("Syncing " +:+ pretty (List.length pendingSubmissions)
       +:+ " offline submission(s)...");;
    sync_loop r pendingSubmissions.

(** The [catch] and [finally] blocks of [handleSubmit]. *)
Definition submit_catch (r : Hooks) : M unit :=
  if negb (isOnline r)
  then addToast offline "No internet connection. Form saved offline."
  else addToast error
         "Network error. Please check your connection and try again.".

(** [try { body } finally { fin }] *)
Definition try_finally {A : Type} (body : M A) (fin : M unit) : M A :=
  λ w,
    match body w with
    | (c, w') =>
        match fin w' with
        | (Normal _, w'') => (c, w'')
        | (Throw e, w'') => (Throw e, w'')
        end
    end.

Definition handleSubmit (r : Hooks) : M unit :=
  valid ← validateForm r;
  if negb valid then addToast error "Please fix the errors in the form"
  else
    setIsSubmitting true;;
    if negb (isOnline r) then
      try_finally
        (try_catch
           ((* Handle offline submission *)
            saveOfflineSubmission r (formData r);;
            addToast offline
              "Form saved offline! Will sync when connection returns.";;
            (* Reset form *)
            setFormData emptyForm;;
            setIsSubmitting false)
           (λ _, submit_catch r))
        (setIsSubmitting false)
    else
      try_catch
        ((* Online submission *)
         addToast info "Submitting form...";;
         (* Simulate API call *)
         setTimeout (ResumeSubmit r) 2000)
        (λ _, try_finally (submit_catch r) (setIsSubmitting false)).

(** [handleSubmit] after its [await]. *)
Definition submit_resume (r : Hooks) : M unit :=
  try_finally
    (try_catch
       (isSuccess ← Math_random_gt_03;
        if isSuccess : bool then
          addToast success
            "Form submitted successfully! Welcome to the workspace!";;
          (* Reset form on success *)
          setFormData emptyForm
        else addToast error "Submission failed. Please try again.")
       (λ _, submit_catch r))
    (setIsSubmitting false).

(** The [onClick] of the Clear Form button. *)
Definition clearForm : M unit :=
  setFormData emptyForm;;
  setErrors ∅.

Definition updateOnlineStatus (r : Hooks) : M unit :=
  online ← navigator_onLine;
  setIsOnline online;;
  if online && bool_decide (0 < List.length (offlineSubmissions r))%nat
  then
    (* Try to sync offline submissions when back online *)
    syncOfflineSubmissions r
  else mret tt.

(** The body of the [useEffect]; its listeners are looked after by
    [dispatch]. *)
Definition mount : M unit :=
  online ← navigator_onLine;
  setIsOnline online;;
  loadOfflineSubmissions.

(** ** Timers and events *)

Definition run_callback (cb : Callback) : M unit :=
  match cb with
  | ExpireToast id =>
      setToasts (λ prev, filter (λ toast, Toast.id toast ≠ id) prev)
  | ResumeSync r submission rest => sync_resume r submission rest
  | PurgeSynced r => sync_purge r
  | ResumeSubmit r => submit_resume r
  end.

(** The timer that fires next, and the others: the least [due], and among
    equals the one that was set first. *)
Fixpoint next_timer (l : list Timer) : option (Timer * list Timer) :=
  match l with
  | [] => None
  | t :: l' =>
      match next_timer l' with
      | None => Some (t, [])
      | Some (t', rest) =>
          if due t <=? due t' then Some (t, l') else Some (t', t :: rest)
      end
  end.

(** The clock reaches the timer's [due] (if it was not already past it)
    and the callback runs. *)
Definition fire (w : World) : option World :=
  match next_timer (timers w) with
  | None => None
  | Some (t, rest) =>
      Some (exec (run_callback (callback t))
              (mkWorld (hooks w) (localStorage w) (quotaExceeded w)
                 (console w) (N.max (now w) (due t)) (onLine w) rest
                 (apiCalls w) (randomGt03 w) (draws w)))
  end.

(** Fire timers until none is left, at most [fuel] of them. *)
Fixpoint settle (fuel : nat) (w : World) : World :=
  match fuel with
  | O => w
  | S fuel' => match fire w with None => w | Some w' => settle fuel' w' end
  end.

(** Time passes with no timer firing. *)
Definition elapse (ms : N) (w : World) : World :=
  mkWorld (hooks w) (localStorage w) (quotaExceeded w) (console w)
    (now w + ms) (onLine w) (timers w) (apiCalls w) (randomGt03 w) (draws w).

Definition set_onLine (b : bool) (w : World) : World :=
  mkWorld (hooks w) (localStorage w) (quotaExceeded w) (console w)
    (now w) b (timers w) (apiCalls w) (randomGt03 w) (draws w).

Inductive Event : Type :=
| Mounted
| Network (online : bool)
| Change (name value : string)
| Submit
| ClearForm
| SyncNow
| TimerFires
| Elapse (ms : N).

(** A user event runs the handler of the latest render, whose captured
    hook values are the current state. The [online]/[offline] listeners
    are those of the first render: the effect that adds them has no
    dependencies. The Sync Now button is rendered only while the list is
    not empty and [isOnline] holds, and the submit button is disabled while
    [isSubmitting] holds. The browser's own check of the [required] and
    [type="email"] attributes, which can only withhold a [Submit], is not
    modelled. *)
Definition dispatch (ev : Event) (w : World) : World :=
  match ev with
  | Mounted => exec mount w
  | Network online =>
      exec (updateOnlineStatus initialHooks) (set_onLine online w)
  | Change name value => exec (handleInputChange (hooks w) name value) w
  | Submit =>
      if isSubmitting (hooks w) then w else exec (handleSubmit (hooks w)) w
  | ClearForm => exec clearForm w
  | SyncNow =>
      if bool_decide (0 < List.length (offlineSubmissions (hooks w)))%nat
         && isOnline (hooks w)
      then exec (syncOfflineSubmissions (hooks w)) w
      else w
  | TimerFires => default w (fire w)
  | Elapse ms => elapse ms w
  end.

Definition run (evs : list Event) (w : World) : World :=
  foldl (λ w ev, dispatch ev w) w evs.

(** ** Vocabulary of the statements *)

Fixpoint all_chars (p : ascii → bool) (s : string) : bool :=
  match s with
  | "" => true
  | String c s' => p c && all_chars p s'
  end.

(** The strings a regular expression denotes. *)
Inductive Matches : RegExp → string → Prop :=
| MatchesEpsilon : Matches Epsilon ""
| MatchesChar p c : p c = true → Matches (CharClass p) (String c "")
| MatchesConcat r1 r2 s1 s2 :
    Matches r1 s1 → Matches r2 s2 → Matches (Concat r1 r2) (s1 +:+ s2)
| MatchesLeft r1 r2 s : Matches r1 s → Matches (Union r1 r2) s
| MatchesRight r1 r2 s : Matches r2 s → Matches (Union r1 r2) s
| MatchesNone r : Matches (Kleene r) ""
| MatchesMore r s1 s2 :
    Matches r s1 → Matches (Kleene r) s2 → Matches (Kleene r) (s1 +:+ s2).

(** A non-empty run of characters other than white space and [@]. *)
Definition label (s : string) : Prop :=
  s ≠ "" ∧ all_chars not_space_at s = true.

(** A world in which nothing has happened yet, at clock reading [t]. *)
Definition quiet (t : N) (h : Hooks) : World :=
  mkWorld h (Some (offlineSubmissions h)) false [] t true [] [] (λ _, true) 0.

(** [saveOfflineSubmission] called as the component calls it, from the
    latest render. *)
Definition enqueue (data : FormData) (w : World) : World :=
  exec (saveOfflineSubmission (hooks w) data) w.

(** A sequence of enqueue operations, each given with the time that passed
    since the one before. *)
Fixpoint enqueue_all (ops : list (N * FormData)) (w : World) : World :=
  match ops with
  | [] => w
  | (ms, data) :: ops' => enqueue_all ops' (enqueue data (elapse ms w))
  end.

(** The records such a sequence is expected to leave, from clock reading
    [t] on. *)
Fixpoint enqueued (t : N) (ops : list (N * FormData))
  : list OfflineSubmission.t :=
  match ops with
  | [] => []
  | (ms, data) :: ops' =>
      OfflineSubmission.mk (pretty (t + ms)) data (t + ms) pending
        :: enqueued (t + ms) ops'
  end.

(** [syncOfflineSubmissions] called from the latest render. *)
Definition syncNow (w : World) : World :=
  exec (syncOfflineSubmissions (hooks w)) w.

Definition pending_ids (h : Hooks) : list string :=
  map OfflineSubmission.id
    (filter (λ s, OfflineSubmission.status s = pending) (offlineSubmissions h)).

(** The remote calls a suspended computation has still to start. *)
Definition owed (cb : Callback) : list string :=
  match cb with
  | ResumeSync _ _ rest => map OfflineSubmission.id rest
  | _ => []
  end.

Definition debts (ts : list Timer) : list string :=
  List.concat (map (λ t, owed (callback t)) ts).

(** The remote calls started so far, and those that the invocations in
    flight have still to start. *)
Definition ledger (w : World) : list string :=
  apiCalls w ++ debts (timers w).

(** A bound on the number of timers that fire before the queue is empty. *)
Definition weight (cb : Callback) : nat :=
  match cb with
  | ExpireToast _ => 1
  | PurgeSynced _ => 1
  | ResumeSubmit _ => 2
  | ResumeSync _ _ rest => 3 + 2 * List.length rest
  end.

Definition weights (ts : list Timer) : nat :=
  sum_list_with (λ t, weight (callback t)) ts.

Definition total_weight (w : World) : nat := weights (timers w).

(** Events in which no handler of the component is called by the user or
    the network: time passing, and timers firing. *)
Definition passive (ev : Event) : Prop :=
  match ev with
  | TimerFires | Elapse _ => True
  | _ => False
  end.

(** The callbacks that write the list of submissions. *)
Definition writer (t : Timer) : Prop :=
  match callback t with
  | ResumeSync _ _ _ | PurgeSynced _ => True
  | _ => False
  end.

Global Instance writer_dec t : Decision (writer t).
Proof. unfold writer. destruct (callback t); apply _. Defined.

Definition writes_for (r : Hooks) (cb : Callback) : Prop :=
  match cb with
  | ResumeSync r' _ _ | PurgeSynced r' => r' = r
  | _ => False
  end.

(** The list of render [r] less the entries that are [synced] in [r]. *)
Definition purged (r : Hooks) : list OfflineSubmission.t :=
  filter (λ s, OfflineSubmission.status s ≠ synced) (offlineSubmissions r).

(** The invocation from render [r] is the only one about: either it has
    exactly one timer waiting, or it is over, and the list is [purged r],
    in memory and, if the storage takes writes, in the storage. *)
Definition in_flight (r : Hooks) (w : World) : Prop :=
  (∃ t, filter writer (timers w) = [t] ∧ writes_for r (callback t)) ∨
  (filter writer (timers w) = [] ∧
   offlineSubmissions (hooks w) = purged r ∧
   (quotaExceeded w = false → localStorage w = Some (purged r))).

Definition statuses (w : World) : list (string * Status) :=
  map (λ s, (OfflineSubmission.id s, OfflineSubmission.status s))
    (offlineSubmissions (hooks w)).

(** ** Vocabulary of the further properties *)

(** The [name] attributes of the seven inputs. *)
Definition fieldNames : list string :=
  ["firstName"; "lastName"; "email"; "address"; "city"; "state";
   "postalCode"].

(** [fd[name]] *)
Definition get_field (name : string) (fd : FormData) : option string :=
  if decide (name = "firstName") then Some (firstName fd)
  else if decide (name = "lastName") then Some (lastName fd)
  else if decide (name = "email") then Some (email fd)
  else if decide (name = "address") then Some (address fd)
  else if decide (name = "city") then Some (city fd)
  else if decide (name = "state") then Some (state fd)
  else if decide (name = "postalCode") then Some (postalCode fd)
  else None.

(** The page is loaded again: the hooks start from the values [useState]
    is given, the timers and the console are gone, the storage stays. *)
Definition reload (w : World) : World :=
  mkWorld initialHooks (localStorage w) (quotaExceeded w) [] (now w)
    (onLine w) [] (apiCalls w) (randomGt03 w) (draws w).

(** The list in memory is the list in the storage; a storage that was never
    written goes with the empty list. *)
Definition write_through (w : World) : Prop :=
  match localStorage w with
  | Some l => l = offlineSubmissions (hooks w)
  | None => offlineSubmissions (hooks w) = []
  end.

Definition no_failed (l : list OfflineSubmission.t) : Prop :=
  Forall (λ s, OfflineSubmission.status s ≠ failed) l.

(** No list that is shown, stored, or kept by a closure that will write it
    has an entry with status [failed], and no notification reports a
    failed synchronisation. *)
Definition never_failed (w : World) : Prop :=
  no_failed (offlineSubmissions (hooks w)) ∧
  (∀ l, localStorage w = Some l → no_failed l) ∧
  Forall (λ t, match callback t with
               | ResumeSync r _ _ | PurgeSynced r =>
                   no_failed (offlineSubmissions r)
               | _ => True
               end) (timers w) ∧
  Forall (λ toast, Toast.message toast ≠ "Failed to sync offline submission")
    (toasts (hooks w)).

(** Every notification shown has a timer waiting to remove it. *)
Definition expiring (w : World) : Prop :=
  ∀ toast, toast ∈ toasts (hooks w) →
    ExpireToast (Toast.id toast) ∈ map callback (timers w).

(** While the submit button is disabled, the rest of a submit is waiting
    for its timer. *)
Definition awaiting_submit (w : World) : Prop :=
  isSubmitting (hooks w) = true →
  ∃ r, ResumeSubmit r ∈ map callback (timers w).

(** How often the character [a] occurs in [s]. *)
Fixpoint occurrences (a : ascii) (s : string) : nat :=
  match s with
  | "" => 0
  | String c s' => (if Ascii.eqb c a then 1 else 0) + occurrences a s'
  end.

(** The remote calls that the Sync Now clicks of a sequence of events ask
    for: at each click, one for each submission pending in the list as it is
    then, if the button is rendered. *)
Fixpoint requested (evs : list Event) (w : World) : list string :=
  match evs with
  | [] => []
  | ev :: evs' =>
      match ev with
      | SyncNow => if isOnline (hooks w) then pending_ids (hooks w) else []
      | _ => []
      end ++ requested evs' (dispatch ev w)
  end.

(** * Properties *)

(** ** Strings and the e-mail pattern *)

Lemma append_nil_l s : "" +:+ s = s.
Proof. reflexivity. Qed.

Lemma append_cons c s1 s2 : String c s1 +:+ s2 = String c (s1 +:+ s2).
Proof. reflexivity. Qed.

Lemma append_nil_r s : s +:+ "" = s.
Proof. induction s as [|c s IH]; [done|]. by rewrite append_cons, IH. Qed.

Lemma append_assoc s1 s2 s3 : (s1 +:+ s2) +:+ s3 = s1 +:+ (s2 +:+ s3).
Proof. induction s1 as [|c s1 IH]; [done|]. by rewrite !append_cons, IH. Qed.

Lemma append_eq_nil s1 s2 : s1 +:+ s2 = "" → s1 = "" ∧ s2 = "".
Proof. destruct s1; [done | discriminate]. Qed.

Lemma nullable_Matches r : nullable r = true ↔ Matches r "".
Proof.
  split.
  - induction r; simpl; intros H; try discriminate.
    + constructor.
    + apply andb_true_iff in H as [H1 H2].
      change "" with ("" +:+ ""). constructor; auto.
    + apply orb_true_iff in H as [H|H];
        [apply MatchesLeft | apply MatchesRight]; auto.
    + constructor.
  - intros H. remember "" as s eqn:Hs.
    induction H; simpl; subst; try discriminate; auto.
    + apply append_eq_nil in Hs as [-> ->].
      rewrite IHMatches1, IHMatches2; auto.
    + rewrite IHMatches; auto.
    + rewrite IHMatches, orb_true_r; auto.
Qed.

Lemma Kleene_cons r c s :
  Matches (Kleene r) (String c s) →
  ∃ s1 s2, s = s1 +:+ s2 ∧ Matches r (String c s1) ∧ Matches (Kleene r) s2.
Proof.
  intros H. remember (Kleene r) as k eqn:Hk.
  remember (String c s) as cs eqn:Hcs.
  revert c s Hcs.
  induction H as [| | | | | |r' s1 s2 H1 _ H2 IH]; intros a u Hcs;
    try discriminate.
  injection Hk as ->.
  destruct s1 as [|c1 s1].
  - apply IH; auto.
  - rewrite append_cons in Hcs. injection Hcs as -> <-. eauto.
Qed.

Lemma derive_Matches r :
  ∀ c s, Matches (derive c r) s ↔ Matches r (String c s).
Proof.
  induction r; intros c s; simpl.
  - split; inversion 1.
  - split; inversion 1.
  - destruct (p c) eqn:Hp; split; intros H; inversion H; subst.
    + by constructor.
    + constructor.
    + congruence.
  - destruct (nullable r1) eqn:Hn.
    + split; intros H.
      * inversion H as [| |? ? ? ? ? ?| ? ? ? H1 | ? ? ? H2 | |]; subst.
        -- inversion H1; subst. 
           change (String c (s1 +:+ s2)) with (String c s1 +:+ s2).
           constructor; [by apply IHr1|done].
        -- change (String c s) with ("" +:+ String c s).
           constructor; [by apply nullable_Matches | by apply IHr2].
      * inversion H as [| |? ? s1 s2 H1 H2 | | | |]; subst.
        destruct s1 as [|c1 s1].
        -- apply MatchesRight. apply IHr2. rewrite append_nil_l in *.
           congruence.
        -- rewrite append_cons in *. simplify_eq. apply MatchesLeft.
           constructor; [by apply IHr1|done].
    + split; intros H.
      * inversion H; subst.
        change (String c (s1 +:+ s2)) with (String c s1 +:+ s2).
        constructor; [by apply IHr1|done].
      * inversion H as [| |? ? s1 s2 H1 H2 | | | |]; subst.
        destruct s1 as [|c1 s1].
        -- apply nullable_Matches in H1. congruence.
        -- rewrite append_cons in *. simplify_eq.
           constructor; [by apply IHr1|done].
  - split; intros H; inversion H; subst.
    + apply MatchesLeft. by apply IHr1.
    + apply MatchesRight. by apply IHr2.
    + apply MatchesLeft. by apply IHr1.
    + apply MatchesRight. by apply IHr2.
  - split; intros H.
    + inversion H; subst.
      change (String c (s1 +:+ s2)) with (String c s1 +:+ s2).
      constructor; [by apply IHr|done].
    + apply Kleene_cons in H as (s1 & s2 & -> & H1 & H2).
      constructor; [by apply IHr|done].
Qed.

Lemma test_Matches r s : test r s = true ↔ Matches r s.
Proof.
  revert r. induction s as [|c s IH]; intros r; simpl.
  - apply nullable_Matches.
  - rewrite IH. apply derive_Matches.
Qed.

Lemma Kleene_class p s :
  Matches (Kleene (CharClass p)) s ↔ all_chars p s = true.
Proof.
  split.
  - intros H. remember (Kleene (CharClass p)) as k eqn:Hk.
    induction H as [| | | | | |r' s1 s2 H1 _ H2 IH]; try discriminate; [done|].
    injection Hk as ->. inversion H1; subst.
    rewrite append_cons, append_nil_l. simpl.
    apply andb_true_iff. auto.
  - induction s as [|c s IH]; simpl; intros H.
    + constructor.
    + apply andb_true_iff in H as [Hc Hs].
      change (String c s) with (String c "" +:+ s).
      constructor; [by constructor | auto].
Qed.

Lemma Concat_Matches r1 r2 s :
  Matches (Concat r1 r2) s ↔
  ∃ s1 s2, s = s1 +:+ s2 ∧ Matches r1 s1 ∧ Matches r2 s2.
Proof.
  split.
  - inversion 1; subst; eauto.
  - intros (s1 & s2 & -> & H1 & H2). by constructor.
Qed.

Lemma Plus_class p s :
  Matches (Plus (CharClass p)) s ↔ s ≠ "" ∧ all_chars p s = true.
Proof.
  unfold Plus. rewrite Concat_Matches. split.
  - intros (s1 & s2 & -> & H1 & H2). inversion H1; subst.
    rewrite append_cons, append_nil_l. split; [done|]. simpl.
    apply Kleene_class in H2. apply andb_true_iff; auto.
  - intros [Hne H]. destruct s as [|c s]; [done|]. simpl in H.
    apply andb_true_iff in H as [Hc Hs].
    exists (String c ""), s. split; [done|]. split; [by constructor|].
    by apply Kleene_class.
Qed.

Lemma literal_Matches a s : Matches (literal a) s ↔ s = String a "".
Proof.
  unfold literal. split.
  - inversion 1 as [|p c Hc| | | | |]; subst.
    apply Ascii.eqb_eq in Hc. by subst.

  - intros ->. constructor. apply Ascii.eqb_refl.
Qed.

Lemma emailPattern_spec s :
  test emailPattern s = true ↔
  ∃ l d t, s = l +:+ "@" +:+ d +:+ "." +:+ t ∧ label l ∧ label d ∧ label t.
Proof.
  rewrite test_Matches. unfold emailPattern, label. split.
  - intros (l & ? & -> & Hl & (? & ? & -> & Ha & (d & ? & -> & Hd &
      (? & t & -> & Hp & Ht)%Concat_Matches)%Concat_Matches
      )%Concat_Matches)%Concat_Matches.
    apply literal_Matches in Ha as ->. apply literal_Matches in Hp as ->.
    apply Plus_class in Hl, Hd, Ht.
    exists l, d, t. done.
  - intros (l & d & t & -> & Hl & Hd & Ht).
    apply Plus_class in Hl, Hd, Ht.
    repeat (constructor; [done || by apply literal_Matches|]). done.
Qed.

Lemma falsy_iff s : falsy s = true ↔ s = "".
Proof. by destruct s. Qed.

Lemma trimStart_white s :
  all_chars is_white (trimStart s) = all_chars is_white s.
Proof.
  induction s as [|c s IH]; [done|]. simpl.
  destruct (is_white c) eqn:Hc; [done|]. simpl. by rewrite Hc.
Qed.

Lemma trimEnd_empty s : trimEnd s = "" ↔ all_chars is_white s = true.
Proof.
  induction s as [|c s IH]; [done|]. simpl.
  destruct (trimEnd s) eqn:Ht.
  - destruct (is_white c); simpl; [by rewrite <- IH|]. split; discriminate.
  - split; [discriminate|]. intros H. apply andb_true_iff in H as [_ H].
    apply IH in H. discriminate.
Qed.

Lemma trim_empty s : trim s = "" ↔ all_chars is_white s = true.
Proof. unfold trim. by rewrite trimEnd_empty, trimStart_white. Qed.

Example emailPattern_accepts : test emailPattern "a@b.co" = true.
Proof. reflexivity. Qed.

Example emailPattern_accepts_subdomain :
  test emailPattern "first.last@mail.example.org" = true.
Proof. reflexivity. Qed.

Example emailPattern_needs_dot : test emailPattern "a@b" = false.
Proof. reflexivity. Qed.

Example emailPattern_needs_label : test emailPattern "a@.co" = false.
Proof. reflexivity. Qed.

Example emailPattern_one_at : test emailPattern "a@b@c.co" = false.
Proof. reflexivity. Qed.

Example emailPattern_no_space : test emailPattern " a@b.co" = false.
Proof. reflexivity. Qed.

Example trim_both_ends : trim "  a b  " = "a b".
Proof. reflexivity. Qed.

(** An address that matches the pattern is not blank. *)
Lemma emailPattern_not_blank s : test emailPattern s = true → trim s ≠ "".
Proof.
  intros (l & d & t & -> & [Hl Hall] & _)%emailPattern_spec Hblank.
  apply trim_empty in Hblank.
  destruct l as [|c l]; [done|].
  rewrite append_cons in Hblank. simpl in Hall, Hblank.
  apply andb_true_iff in Hall as [Hc _], Hblank as [Hw _].
  unfold not_space_at in Hc. rewrite Hw in Hc. discriminate.
Qed.

(** ** Validation *)

Lemma newErrors_empty_iff fd :
  newErrors fd = ∅ ↔
  trim (firstName fd) ≠ "" ∧ trim (lastName fd) ≠ "" ∧
  trim (email fd) ≠ "" ∧ test emailPattern (email fd) = true.
Proof.
  unfold newErrors.
  destruct (falsy (trim (firstName fd))) eqn:H1,
           (falsy (trim (lastName fd))) eqn:H2,
           (falsy (trim (email fd))) eqn:H3,
           (test emailPattern (email fd)) eqn:H4; simpl;
    try apply falsy_iff in H1; try apply falsy_iff in H2;
    try apply falsy_iff in H3;
    (split; [intros He; try (by apply insert_non_empty in He) | ]);
    try (intros (? & ? & ? & ?); congruence).
  repeat split; try done; intros E; apply falsy_iff in E; congruence.
Qed.

Lemma newErrors_firstName fd :
  newErrors fd !! "firstName" =
    if falsy (trim (firstName fd)) then Some "First name is required"
    else None.
Proof.
  unfold newErrors.
  destruct (falsy (trim (firstName fd))), (falsy (trim (lastName fd))),
    (falsy (trim (email fd))), (test emailPattern (email fd)); reflexivity.
Qed.

Lemma newErrors_lastName fd :
  newErrors fd !! "lastName" =
    if falsy (trim (lastName fd)) then Some "Last name is required"
    else None.
Proof.
  unfold newErrors.
  destruct (falsy (trim (firstName fd))), (falsy (trim (lastName fd))),
    (falsy (trim (email fd))), (test emailPattern (email fd)); reflexivity.
Qed.

Lemma newErrors_email fd :
  newErrors fd !! "email" =
    if falsy (trim (email fd)) then Some "Email is required"
    else if test emailPattern (email fd) then None
    else Some "Please enter a valid email".
Proof.
  unfold newErrors.
  destruct (falsy (trim (firstName fd))), (falsy (trim (lastName fd))),
    (falsy (trim (email fd))), (test emailPattern (email fd)); reflexivity.
Qed.

Lemma newErrors_other fd k :
  k ≠ "firstName" → k ≠ "lastName" → k ≠ "email" → newErrors fd !! k = None.
Proof.
  intros K1 K2 K3. unfold newErrors.
  destruct (falsy (trim (firstName fd))), (falsy (trim (lastName fd))),
    (falsy (trim (email fd))), (test emailPattern (email fd)); simpl;
    by rewrite ?lookup_insert_ne, lookup_empty.
Qed.

Lemma validateForm_eq r w :
  validateForm r w =
    (Normal (bool_decide (newErrors (formData r) = ∅)),
     exec (setErrors (newErrors (formData r))) w).
Proof.
  unfold validateForm, exec, mbind, M_bind, mret, M_ret.
  unfold setErrors, setErrorsWith, modify. simpl. do 2 f_equal.
  apply bool_decide_ext, map_size_empty_iff.
Qed.

(** [handleSubmit] is one of two computations, by the outcome of the
    validation. *)
Lemma handleSubmit_eq r w :
  handleSubmit r w =
    (if bool_decide (newErrors (formData r) = ∅)
     then
       setIsSubmitting true;;
       if negb (isOnline r) then
         try_finally
           (try_catch
              (saveOfflineSubmission r (formData r);;
               addToast offline
                 "Form saved offline! Will sync when connection returns.";;
               setFormData emptyForm;;
               setIsSubmitting false)
              (λ _, submit_catch r))
           (setIsSubmitting false)
       else
         try_catch
           (addToast info "Submitting form...";;
            setTimeout (ResumeSubmit r) 2000)
           (λ _, try_finally (submit_catch r) (setIsSubmitting false))
     else addToast error "Please fix the errors in the form")
      (exec (setErrors (newErrors (formData r))) w).
Proof.
  unfold handleSubmit. unfold mbind at 1, M_bind at 1.
  rewrite validateForm_eq. by destruct (bool_decide _).
Qed.

(** What [handleSubmit] does with a form that fails validation. *)
Lemma handleSubmit_invalid r w :
  newErrors (formData r) ≠ ∅ →
  exec (handleSubmit r) w =
    exec (addToast error "Please fix the errors in the form")
      (exec (setErrors (newErrors (formData r))) w).
Proof.
  intros Hne. unfold exec at 1. rewrite handleSubmit_eq.
  by rewrite bool_decide_eq_false_2.
Qed.

(** C6, as amended. [validateForm] stores in [errors] one message for each
    failing field and nothing else, and returns [true] exactly when that
    mapping is empty, which is exactly when first name, last name and
    e-mail are not blank once trimmed and the e-mail matches the pattern.
    With an empty first name and the other two fields valid the mapping is
    [{firstName: "First name is required"}]; with an empty first name
    [handleSubmit] creates no submission, writes nothing to the storage,
    and emits one notification, of kind [error]. *)
Theorem validateForm_contract (r : Hooks) (w : World) :
  let fd := formData r in
  let e := newErrors fd in
  (validateForm r w).1 = Normal (bool_decide (e = ∅)) ∧
  errors (hooks (exec (validateForm r) w)) = e ∧
  e !! "firstName" =
    (if falsy (trim (firstName fd)) then Some "First name is required"
     else None) ∧
  e !! "lastName" =
    (if falsy (trim (lastName fd)) then Some "Last name is required"
     else None) ∧
  e !! "email" =
    (if falsy (trim (email fd)) then Some "Email is required"
     else if test emailPattern (email fd) then None
     else Some "Please enter a valid email") ∧
  (∀ k, k ≠ "firstName" → k ≠ "lastName" → k ≠ "email" → e !! k = None) ∧
  (e = ∅ ↔
     trim (firstName fd) ≠ "" ∧ trim (lastName fd) ≠ "" ∧
     trim (email fd) ≠ "" ∧ test emailPattern (email fd) = true) ∧
  (firstName fd = "" → trim (lastName fd) ≠ "" →
   test emailPattern (email fd) = true →
   e = {["firstName" := "First name is required"]}) ∧
  (firstName fd = "" →
   let w' := exec (handleSubmit r) w in
   errors (hooks w') = e ∧
   e !! "firstName" = Some "First name is required" ∧
   offlineSubmissions (hooks w') = offlineSubmissions (hooks w) ∧
   localStorage w' = localStorage w ∧
   toasts (hooks w') =
     toasts (hooks w)
     ++ [Toast.mk (pretty (now w)) error "Please fix the errors in the form"]).
Proof.
  intros fd e. subst e fd.
  rewrite validateForm_eq. simpl.
  split; [done|]. split; [by destruct w|].
  split; [apply newErrors_firstName|]. split; [apply newErrors_lastName|].
  split; [apply newErrors_email|]. split; [apply newErrors_other|].
  split; [apply newErrors_empty_iff|]. split.
  - intros H1 H2 H3. pose proof (emailPattern_not_blank _ H3) as H4.
    unfold newErrors. rewrite H1, H3. simpl.
    destruct (trim (lastName (formData r))); [done|].
    destruct (trim (email (formData r))); done.
  - intros H1.
    assert (Hf : newErrors (formData r) !! "firstName"
                 = Some "First name is required").
    { by rewrite newErrors_firstName, H1. }
    rewrite handleSubmit_invalid.
    + by destruct w.
    + intros He. by rewrite He in Hf.
Qed.

(** The scenario of the specification: an empty first name, with a valid
    last name and e-mail. *)
Lemma validateForm_contract_witness :
  newErrors (mkFormData "" "B" "a@b.co" "" "" "" "")
  = {["firstName" := "First name is required"]}.
Proof.
  destruct (validateForm_contract
              (mkHooks (mkFormData "" "B" "a@b.co" "" "" "" "") ∅ false []
                 true [])
              (quiet 1000 initialHooks))
    as (_ & _ & _ & _ & _ & _ & _ & H & _).
  apply H; [reflexivity | vm_compute; discriminate | reflexivity].
Defined.

(** C6, as stated, fails: a first name that is a single space is not
    empty, the last name and the e-mail are in order, and the mapping is
    not empty. *)
Lemma validateForm_blank_first_name :
  let fd := mkFormData " " "B" "a@b.co" "" "" "" "" in
  firstName fd ≠ "" ∧ lastName fd ≠ "" ∧ email fd ≠ "" ∧
  test emailPattern (email fd) = true ∧
  newErrors fd = {["firstName" := "First name is required"]} ∧
  newErrors fd ≠ ∅.
Proof.
  vm_compute. repeat split; discriminate.
Qed.

(** ** Storing a submission *)

(** [saveOfflineSubmissions] always completes: either the storage takes
    the list, or the failure is logged. It never touches the hooks. *)
Lemma saveOfflineSubmissions_eq l w :
  saveOfflineSubmissions l w =
    (Normal tt,
     if quotaExceeded w
     then exec (console_error "Error saving offline submissions:") w
     else mkWorld (hooks w) (Some l) (quotaExceeded w) (console w) (now w)
            (onLine w) (timers w) (apiCalls w) (randomGt03 w) (draws w)).
Proof.
  unfold saveOfflineSubmissions, try_catch, localStorage_setItem.
  destruct (quotaExceeded w); reflexivity.
Qed.

Lemma saveOfflineSubmission_hooks r data w :
  offlineSubmissions (hooks (exec (saveOfflineSubmission r data) w)) =
    offlineSubmissions r
    ++ [OfflineSubmission.mk (pretty (now w)) data (now w) pending].
Proof. destruct w as [h ls [] c n o ts api rnd d]; reflexivity. Qed.

(** C7. Offline, with a form that passes validation, [handleSubmit] appends
    exactly one submission, with status [pending] and the form's data, to
    the store (and to its persisted copy), emits exactly one notification,
    of kind [offline], and resets every form field to the empty string. *)
Theorem handleSubmit_offline (w : World) :
  let fd := formData (hooks w) in
  isOnline (hooks w) = false →
  trim (firstName fd) ≠ "" →
  trim (lastName fd) ≠ "" →
  test emailPattern (email fd) = true →
  let w' := exec (handleSubmit (hooks w)) w in
  offlineSubmissions (hooks w') =
    offlineSubmissions (hooks w)
    ++ [OfflineSubmission.mk (pretty (now w)) fd (now w) pending] ∧
  (quotaExceeded w = false →
   localStorage w' = Some (offlineSubmissions (hooks w'))) ∧
  toasts (hooks w') =
    toasts (hooks w)
    ++ [Toast.mk (pretty (now w)) offline
          "Form saved offline! Will sync when connection returns."] ∧
  formData (hooks w') = mkFormData "" "" "" "" "" "" "" ∧
  isSubmitting (hooks w') = false.
Proof.
  intros fd Hoff H1 H2 H4.
  assert (He : newErrors fd = ∅).
  { apply newErrors_empty_iff. auto using emailPattern_not_blank. }
  subst fd. unfold exec. rewrite handleSubmit_eq, He, Hoff.
  rewrite bool_decide_eq_true_2 by done.
  destruct w as [h ls [] c n o ts api rnd d];
    repeat split; reflexivity || discriminate.
Qed.

(** The scenario of the specification: [{firstName: "A", lastName: "B",
    email: "a@b.co"}] submitted while offline, with an empty queue. *)
Lemma handleSubmit_offline_witness :
  let w := quiet 1000
             (mkHooks (mkFormData "A" "B" "a@b.co" "" "" "" "") ∅ false []
                false []) in
  let w' := exec (handleSubmit (hooks w)) w in
  offlineSubmissions (hooks w') =
    [OfflineSubmission.mk "1000" (mkFormData "A" "B" "a@b.co" "" "" "" "")
       1000 pending] ∧
  map Toast.type (toasts (hooks w')) = [offline] ∧
  formData (hooks w') = emptyForm.
Proof.
  intros w w'.
  destruct (handleSubmit_offline w) as (Hs & _ & Ht & Hf & _);
    [reflexivity | vm_compute; discriminate | vm_compute; discriminate
    | reflexivity |].
  fold w' in Hs, Ht, Hf. rewrite Hs, Ht, Hf. done.
Defined.

(** C8. When the storage refuses the write, [saveOfflineSubmissions] logs
    the failure and completes normally, whatever list it was given, and
    leaves hooks and storage as they were; so [saveOfflineSubmission] still
    returns the new id, the new submission stays in the in-memory list, and
    the hooks are those of a run in which the write succeeded. *)
Theorem saveOfflineSubmission_storage_failure
  (r : Hooks) (data : FormData) (w : World) :
  quotaExceeded w = true →
  (∀ l,
     (saveOfflineSubmissions l w).1 = Normal tt ∧
     hooks (exec (saveOfflineSubmissions l) w) = hooks w ∧
     localStorage (exec (saveOfflineSubmissions l) w) = localStorage w ∧
     console (exec (saveOfflineSubmissions l) w) =
       console w ++ ["Error saving offline submissions:"]) ∧
  let w' := exec (saveOfflineSubmission r data) w in
  (saveOfflineSubmission r data w).1 = Normal (pretty (now w)) ∧
  offlineSubmissions (hooks w') =
    offlineSubmissions r
    ++ [OfflineSubmission.mk (pretty (now w)) data (now w) pending] ∧
  console w' = console w ++ ["Error saving offline submissions:"] ∧
  localStorage w' = localStorage w ∧
  hooks w' =
    hooks (exec (saveOfflineSubmission r data)
             (mkWorld (hooks w) (localStorage w) false (console w) (now w)
                (onLine w) (timers w) (apiCalls w) (randomGt03 w) (draws w))).
Proof.
  intros Hq. split.
  - intros l. unfold exec. rewrite saveOfflineSubmissions_eq, Hq.
    by destruct w.
  - destruct w as [h ls q c n o ts api rnd d]. simpl in Hq. subst q. done.
Qed.

Lemma saveOfflineSubmission_storage_failure_witness :
  let w := mkWorld initialHooks None true [] 1000 false [] [] (λ _, true) 0 in
  let w' := exec (saveOfflineSubmission (hooks w) emptyForm) w in
  map OfflineSubmission.id (offlineSubmissions (hooks w')) = ["1000"] ∧
  localStorage w' = None.
Proof.
  intros w w'.
  destruct (saveOfflineSubmission_storage_failure (hooks w) emptyForm w)
    as (_ & _ & Hs & _ & Hl & _); [reflexivity|].
  fold w' in Hs, Hl. rewrite Hs, Hl. done.
Defined.

(** ** Clearing the form *)

(** C10. The Clear Form button resets every form field to the empty string
    and empties the mapping of validation errors; the offline submissions,
    their persisted copy and the notifications stay as they were, and so
    does everything else. *)
Theorem clearForm_frame (w : World) :
  let w' := dispatch ClearForm w in
  formData (hooks w') = mkFormData "" "" "" "" "" "" "" ∧
  errors (hooks w') = ∅ ∧
  offlineSubmissions (hooks w') = offlineSubmissions (hooks w) ∧
  localStorage w' = localStorage w ∧
  toasts (hooks w') = toasts (hooks w) ∧
  isSubmitting (hooks w') = isSubmitting (hooks w) ∧
  isOnline (hooks w') = isOnline (hooks w) ∧
  timers w' = timers w ∧
  console w' = console w ∧
  now w' = now w ∧
  apiCalls w' = apiCalls w.
Proof. by destruct w. Qed.

(** ** Synchronisation *)

Lemma no_pending_filter (l : list OfflineSubmission.t) :
  Forall (λ s, OfflineSubmission.status s ≠ pending) l →
  filter (λ s, OfflineSubmission.status s = pending) l = [].
Proof.
  induction 1 as [|s l Hs _ IH]; [done|]. by rewrite filter_cons_False.
Qed.

(** C5. When no submission of the render has status [pending],
    [syncOfflineSubmissions] returns at once and the world is the one it
    started in: no notification, no timer, and the same store, in memory
    and persisted. The same holds of the Sync Now button, whose render is
    the current state. *)
Theorem syncOfflineSubmissions_nothing_pending (r : Hooks) (w : World) :
  Forall (λ s, OfflineSubmission.status s ≠ pending) (offlineSubmissions r) →
  syncOfflineSubmissions r w = (Normal tt, w) ∧
  (r = hooks w → dispatch SyncNow w = w).
Proof.
  intros H. apply no_pending_filter in H.
  assert (E : syncOfflineSubmissions r w = (Normal tt, w)).
  { unfold syncOfflineSubmissions. by rewrite H. }
  split; [done|]. intros ->. simpl.
  destruct (_ && _); [|done]. unfold exec. by rewrite E.
Qed.

Lemma syncOfflineSubmissions_nothing_pending_witness :
  let h := mkHooks emptyForm ∅ false [] true
             [OfflineSubmission.mk "7" emptyForm 7 synced;
              OfflineSubmission.mk "8" emptyForm 8 failed] in
  dispatch SyncNow (quiet 1000 h) = quiet 1000 h.
Proof.
  intros h.
  apply (syncOfflineSubmissions_nothing_pending h (quiet 1000 h)).
  - repeat constructor; discriminate.
  - reflexivity.
Defined.

(** ** Sequences of enqueue operations *)

Lemma enqueue_all_hooks ops : ∀ w,
  offlineSubmissions (hooks (enqueue_all ops w)) =
    offlineSubmissions (hooks w) ++ enqueued (now w) ops.
Proof.
  induction ops as [|[ms data] ops IH]; intros w; simpl.
  - by rewrite app_nil_r.
  - rewrite IH. unfold enqueue. rewrite saveOfflineSubmission_hooks.
    rewrite <- app_assoc. by destruct w as [h ls [] c n o ts api rnd d].
Qed.

Lemma enqueue_all_storage ops : ∀ w,
  quotaExceeded w = false → ops ≠ [] →
  localStorage (enqueue_all ops w) =
    Some (offlineSubmissions (hooks (enqueue_all ops w))).
Proof.
  induction ops as [|[ms data] ops IH]; intros w Hq Hne; [done|]. simpl.
  destruct ops as [|op ops].
  - destruct w as [h ls q c n o ts api rnd d]. simpl in Hq. by subst q.
  - apply IH; [|done].
    destruct w as [h ls q c n o ts api rnd d]. simpl in Hq. by subst q.
Qed.

Lemma enqueued_data ops : ∀ t,
  map OfflineSubmission.data (enqueued t ops) = map snd ops.
Proof.
  induction ops as [|[ms data] ops IH]; intros t; simpl; [done|].
  by rewrite IH.
Qed.

Lemma enqueued_pending ops : ∀ t,
  Forall (λ s, OfflineSubmission.status s = pending) (enqueued t ops).
Proof.
  induction ops as [|[ms data] ops IH]; intros t; simpl; constructor; auto.
Qed.

(** With time passing before each operation, every id is the decimal of a
    clock reading later than the start. *)
Lemma enqueued_later ops : ∀ t,
  Forall (λ op, 0 < op.1) ops →
  Forall (λ id, ∃ u, t < u ∧ id = pretty u)
    (map OfflineSubmission.id (enqueued t ops)).
Proof.
  induction ops as [|[ms data] ops IH]; intros t Hpos; simpl; [constructor|].
  apply Forall_cons in Hpos as [Hms Hpos]. simpl in Hms.
  constructor.
  - exists (t + ms). split; [lia | done].
  - eapply Forall_impl; [by apply IH|].
    intros id (u & Hu & ->). exists u. split; [lia | done].
Qed.

Lemma enqueued_NoDup ops : ∀ t,
  Forall (λ op, 0 < op.1) (tail ops) →
  NoDup (map OfflineSubmission.id (enqueued t ops)).
Proof.
  induction ops as [|[ms data] ops IH]; intros t Hpos; simpl; [constructor|].
  simpl in Hpos. apply NoDup_cons. split.
  - intros Hin. pose proof (enqueued_later ops (t + ms) Hpos) as Hl.
    rewrite Forall_forall in Hl.
    destruct (Hl _ Hin) as (u & Hu & Heq).
    apply (inj pretty) in Heq. lia.
  - apply IH. destruct ops; [constructor|].
    by apply Forall_cons in Hpos as [_ ?].
Qed.

(** C3, as amended. Starting from an empty store, after any sequence of
    enqueue operations the list holds exactly the enqueued records, in the
    order of insertion, each with status [pending], and the persisted copy
    agrees with it when the storage takes the writes. An id is the decimal
    of the clock reading at the enqueue: the ids are pairwise different
    provided the clock has moved between any two operations. *)
Theorem enqueue_all_listAll (ops : list (N * FormData)) (w : World) :
  offlineSubmissions (hooks w) = [] →
  let l := offlineSubmissions (hooks (enqueue_all ops w)) in
  l = enqueued (now w) ops ∧
  map OfflineSubmission.data l = map snd ops ∧
  Forall (λ s, OfflineSubmission.status s = pending) l ∧
  (quotaExceeded w = false → ops ≠ [] →
   localStorage (enqueue_all ops w) = Some l) ∧
  (Forall (λ op, 0 < op.1) (tail ops) → NoDup (map OfflineSubmission.id l)).
Proof.
  intros Hempty l. subst l. rewrite enqueue_all_hooks, Hempty. simpl.
  split; [done|]. split; [apply enqueued_data|].
  split; [apply enqueued_pending|]. split.
  - intros Hq Hne. rewrite <- (app_nil_l (enqueued _ _)), <- Hempty.
    rewrite <- enqueue_all_hooks. by apply enqueue_all_storage.
  - apply enqueued_NoDup.
Qed.

Lemma enqueue_all_listAll_witness :
  let a := mkFormData "A" "B" "a@b.co" "" "" "" "" in
  let b := mkFormData "C" "D" "c@d.org" "" "" "" "" in
  let w := quiet 1000 initialHooks in
  map OfflineSubmission.id
    (offlineSubmissions (hooks (enqueue_all [(0, a); (1, b)] w)))
  = ["1000"; "1001"] ∧
  NoDup (map OfflineSubmission.id
           (offlineSubmissions (hooks (enqueue_all [(0, a); (1, b)] w)))).
Proof.
  intros a b w. split; [reflexivity|].
  apply (enqueue_all_listAll [(0, a); (1, b)] w); [reflexivity|].
  repeat constructor.
Defined.

(** C3, as stated, fails: two enqueue operations at one clock reading get
    the same id. *)
Lemma enqueue_twice_same_id :
  let a := mkFormData "A" "B" "a@b.co" "" "" "" "" in
  let b := mkFormData "C" "D" "c@d.org" "" "" "" "" in
  let l := offlineSubmissions
             (hooks (enqueue_all [(0, a); (0, b)] (quiet 1000 initialHooks))) in
  map OfflineSubmission.data l = [a; b] ∧
  map OfflineSubmission.id l = ["1000"; "1000"] ∧
  ¬ NoDup (map OfflineSubmission.id l).
Proof.
  vm_compute. repeat split.
  intros [Hin _]%NoDup_cons. apply Hin. by left.
Qed.

(** ** Notifications *)

Lemma filter_keeps_all (id : string) (l : list Toast.t) :
  Forall (λ t, Toast.id t ≠ id) l → filter (λ t, Toast.id t ≠ id) l = l.
Proof.
  induction 1 as [|t l Ht _ IH]; [done|].
  by rewrite filter_cons_True, IH.
Qed.

Lemma filter_only_one (id : string) (t : Toast.t)
  (before after : list Toast.t) :
  Toast.id t = id →
  Forall (λ t', Toast.id t' ≠ id) (before ++ after) →
  filter (λ t', Toast.id t' ≠ id) (before ++ [t] ++ after) = before ++ after.
Proof.
  intros Ht [Hb Ha]%Forall_app.
  rewrite !filter_app, filter_cons_False, filter_nil by (intros H; by apply H).
  simpl. by rewrite !filter_keeps_all.
Qed.

(** C9, as amended. A call of [addToast] appends exactly one notification,
    whatever the list already holds, and sets one timer, due exactly 5000 ms
    later. When that timer fires on time the clock reads the creation time
    plus 5000, and the notifications removed are those whose id is the
    decimal of the creation time: this one, and no notification created at
    another clock reading. *)
Theorem addToast_lifecycle (type : ToastType) (message : string) (w : World) :
  let id := pretty (now w) in
  let newToast := Toast.mk id type message in
  let w1 := exec (addToast type message) w in
  toasts (hooks w1) = toasts (hooks w) ++ [newToast] ∧
  timers w1 = timers w ++ [mkTimer (now w + 5000) (ExpireToast id)] ∧
  offlineSubmissions (hooks w1) = offlineSubmissions (hooks w) ∧
  localStorage w1 = localStorage w ∧
  now w1 = now w ∧
  (∀ w2 rest,
     next_timer (timers w2)
       = Some (mkTimer (now w + 5000) (ExpireToast id), rest) →
     now w2 ≤ now w + 5000 →
     ∃ w3, fire w2 = Some w3 ∧
       now w3 = now w + 5000 ∧
       timers w3 = rest ∧
       toasts (hooks w3) = filter (λ t, Toast.id t ≠ id) (toasts (hooks w2)) ∧
       (∀ before after,
          toasts (hooks w2) = before ++ [newToast] ++ after →
          Forall (λ t, Toast.id t ≠ id) (before ++ after) →
          toasts (hooks w3) = before ++ after)) ∧
  (∀ u, u ≠ now w → pretty u ≠ id).
Proof.
  intros id newToast w1. subst w1.
  split; [by destruct w|]. split; [by destruct w|]. split; [by destruct w|].
  split; [by destruct w|]. split; [by destruct w|]. split.
  - intros w2 rest Hnext Hnow. unfold fire. rewrite Hnext. simpl.
    eexists. split; [reflexivity|]. simpl.
    split; [lia|]. split; [done|]. split; [done|].
    intros before after -> Hother. by apply filter_only_one.
  - intros u Hu Heq. by apply (inj pretty) in Heq.
Qed.

Lemma addToast_lifecycle_witness :
  let w1 := exec (addToast info "Saved") (quiet 1000 initialHooks) in
  ∃ w3, fire w1 = Some w3 ∧ now w3 = 6000 ∧ toasts (hooks w3) = [].
Proof.
  intros w1.
  destruct (addToast_lifecycle info "Saved" (quiet 1000 initialHooks))
    as (_ & _ & _ & _ & _ & Hfire & _).
  destruct (Hfire w1 []) as (w3 & Hw3 & Hnow & _ & _ & Honly);
    [reflexivity | vm_compute; discriminate |].
  exists w3. split; [done|]. split; [done|].
  apply (Honly [] []); [reflexivity | constructor].
Defined.

(** C9, as stated, fails: two notifications posted at one clock reading
    are two entries with one id, and when the timer of the first fires both
    are removed, while the timer of the second is still to fire. *)
Lemma addToast_twice_one_expiry :
  let w2 := exec (addToast info "Saved")
              (exec (addToast info "Saved") (quiet 1000 initialHooks)) in
  toasts (hooks w2)
    = [Toast.mk "1000" info "Saved"; Toast.mk "1000" info "Saved"] ∧
  ∃ w3, fire w2 = Some w3 ∧
    toasts (hooks w3) = [] ∧
    timers w3 = [mkTimer 6000 (ExpireToast "1000")].
Proof.
  split; [reflexivity|]. eexists. split; [reflexivity|]. split; reflexivity.
Qed.

(** ** Invocations in flight

    Whatever else happens, an invocation of [syncOfflineSubmissions] starts
    one remote call for each submission that is pending in its render: the
    first when it is invoked, the others as its timers fire. [ledger] counts
    the calls started and the calls still to start; only an invocation adds
    to it. *)

Lemma next_timer_None l : next_timer l = None → l = [].
Proof.
  destruct l as [|t l]; [done|]. simpl.
  destruct (next_timer l) as [[t' rest]|]; [|done].
  by destruct (due t <=? due t').
Qed.

Lemma next_timer_Permutation l : ∀ t rest,
  next_timer l = Some (t, rest) → l ≡ₚ t :: rest.
Proof.
  induction l as [|a l IH]; intros t rest; simpl; [done|].
  destruct (next_timer l) as [[t' rest']|] eqn:Hn.
  - destruct (due a <=? due t'); intros [= <- <-]; [done|].
    rewrite (IH _ _ eq_refl). apply perm_swap.
  - intros [= <- <-]. by rewrite (next_timer_None l Hn).
Qed.


Lemma debts_Permutation ts ts' : ts ≡ₚ ts' → debts ts ≡ₚ debts ts'.
Proof.
  unfold debts.
  induction 1 as [|t ts ts' _ IH|t1 t2 ts|ts1 ts2 ts3 _ IH1 _ IH2]; simpl.
  - done.
  - by rewrite IH.
  - rewrite !app_assoc. f_equiv. apply Permutation_app_comm.
  - by rewrite IH1.
Qed.

Lemma weights_Permutation ts ts' : ts ≡ₚ ts' → weights ts = weights ts'.
Proof. unfold weights. by intros ->. Qed.

Local Ltac close_effect :=
  repeat split; unfold debts, weights; simpl; rewrite ?app_nil_r;
  first [done | lia].

Lemma run_callback_effect cb w :
  ∃ calls ts,
    apiCalls (exec (run_callback cb) w) = apiCalls w ++ calls ∧
    timers (exec (run_callback cb) w) = timers w ++ ts ∧
    calls ++ debts ts = owed cb ∧
    (weights ts < weight cb)%nat.
Proof.
  destruct cb as [id|r s rest|r|r]; simpl.
  - exists [], []. destruct w. close_effect.
  - destruct rest as [|s' rest].
    + exists [], [mkTimer (now w + 5000) (ExpireToast (pretty (now w)));
                 mkTimer (now w + 3000) (PurgeSynced r)].
      destruct w as [h ls [] c n o ts api rnd d]; simpl;
        rewrite <- ?app_assoc; close_effect.
    + exists [OfflineSubmission.id s'],
        [mkTimer (now w + 5000) (ExpireToast (pretty (now w)));
         mkTimer (now w + 1000) (ResumeSync r s' rest)].
      destruct w as [h ls [] c n o ts api rnd d]; simpl;
        rewrite <- ?app_assoc; close_effect.
  - exists [], []. destruct w as [h ls [] c n o ts api rnd d]; close_effect.
  - exists [], [mkTimer (now w + 5000) (ExpireToast (pretty (now w)))].
    destruct w as [h ls q c n o ts api rnd d].
    unfold exec, submit_resume, try_finally, try_catch, mbind, M_bind,
      Math_random_gt_03. simpl.
    destruct (rnd d); close_effect.
Qed.

Lemma syncNow_effect w :
  ∃ calls ts,
    apiCalls (syncNow w) = apiCalls w ++ calls ∧
    timers (syncNow w) = timers w ++ ts ∧
    calls ++ debts ts = pending_ids (hooks w).
Proof.
  unfold syncNow, syncOfflineSubmissions, pending_ids.
  destruct (filter _ (offlineSubmissions (hooks w))) as [|s rest].
  - exists [], []. simpl. by rewrite !app_nil_r.
  - exists [OfflineSubmission.id s],
      [mkTimer (now w + 5000) (ExpireToast (pretty (now w)));
       mkTimer (now w + 1000) (ResumeSync (hooks w) s rest)].
    destruct w as [h ls [] c n o ts api rnd d]; simpl;
      rewrite <- ?app_assoc; close_effect.
Qed.

Lemma ledger_effect w w' calls ts :
  apiCalls w' = apiCalls w ++ calls →
  timers w' = timers w ++ ts →
  ledger w' ≡ₚ ledger w ++ calls ++ debts ts.
Proof.
  intros Ha Ht. unfold ledger, debts. rewrite Ha, Ht, map_app, concat_app.
  rewrite <- !app_assoc. f_equiv. rewrite !app_assoc. f_equiv.
  apply Permutation_app_comm.
Qed.

Lemma fire_ledger w w' : fire w = Some w' → ledger w' ≡ₚ ledger w.
Proof.
  unfold fire.
  destruct (next_timer (timers w)) as [[t rest]|] eqn:Hn; [|done].
  intros [= <-]. apply next_timer_Permutation in Hn.
  match goal with |- ledger (exec _ ?w0) ≡ₚ _ => set (v := w0) end.
  destruct (run_callback_effect (callback t) v)
    as (calls & ts & Ha & Ht & Ho & _).
  rewrite (ledger_effect _ _ _ _ Ha Ht), Ho.
  unfold ledger. rewrite (debts_Permutation _ _ Hn). subst v. simpl.
  change (debts (t :: rest)) with (owed (callback t) ++ debts rest).
  rewrite <- !app_assoc. f_equiv. apply Permutation_app_comm.
Qed.

Lemma fire_weight w w' :
  fire w = Some w' → (total_weight w' < total_weight w)%nat.
Proof.
  unfold fire.
  destruct (next_timer (timers w)) as [[t rest]|] eqn:Hn; [|done].
  intros [= <-]. apply next_timer_Permutation in Hn.
  match goal with
  | |- (total_weight (exec _ ?w0) < _)%nat => set (v := w0)
  end.
  destruct (run_callback_effect (callback t) v)
    as (calls & ts & _ & Ht & _ & Hw).
  unfold total_weight. rewrite Ht, (weights_Permutation _ _ Hn).
  unfold weights in *. rewrite sum_list_with_app. subst v. simpl. lia.
Qed.

Lemma settle_ledger n : ∀ w, ledger (settle n w) ≡ₚ ledger w.
Proof.
  induction n as [|n IH]; intros w; simpl; [done|].
  destruct (fire w) as [w'|] eqn:Hf; [|done].
  by rewrite IH, (fire_ledger _ _ Hf).
Qed.

Lemma settle_done n :
  ∀ w, (total_weight w ≤ n)%nat → timers (settle n w) = [].
Proof.
  induction n as [|n IH]; intros w Hw; simpl.
  - unfold total_weight, weights in Hw.
    destruct (timers w) as [|t ts]; [done|].
    simpl in Hw. destruct (callback t); simpl in Hw; lia.
  - destruct (fire w) as [w'|] eqn:Hf.
    + apply IH. apply fire_weight in Hf. lia.
    + unfold fire in Hf.
      destruct (next_timer (timers w)) as [[t rest]|] eqn:Hn; [done|].
      by apply next_timer_None.
Qed.

Lemma passive_ledger ev w :
  passive ev → ledger (dispatch ev w) ≡ₚ ledger w.
Proof.
  destruct ev; try done; intros _; simpl.
  destruct (fire w) as [w'|] eqn:Hf; [|done]. by apply fire_ledger.
Qed.

Lemma run_passive_ledger evs :
  ∀ w, Forall passive evs → ledger (run evs w) ≡ₚ ledger w.
Proof.
  induction evs as [|ev evs IH]; intros w Hp; [done|].
  apply Forall_cons in Hp as [Hev Hp]. unfold run in *. simpl.
  by rewrite IH, passive_ledger.
Qed.

Lemma syncNow_ledger w :
  ledger (syncNow w) ≡ₚ ledger w ++ pending_ids (hooks w).
Proof.
  destruct (syncNow_effect w) as (calls & ts & Ha & Ht & Ho).
  by rewrite (ledger_effect _ _ _ _ Ha Ht), Ho.
Qed.

Lemma syncNow_noop_iff w : pending_ids (hooks w) = [] ↔ syncNow w = w.
Proof.
  destruct (syncNow_effect w) as (calls & ts & Ha & Ht & Ho). split.
  - intros Hp. unfold pending_ids in Hp. apply map_eq_nil in Hp.
    unfold syncNow, syncOfflineSubmissions. by rewrite Hp.
  - intros Hw. rewrite Hw in Ha, Ht. rewrite <- Ho.
    assert (calls = []) as ->.
    { apply (f_equal List.length) in Ha. rewrite length_app in Ha.
      destruct calls; [done | simpl in Ha; lia]. }
    assert (ts = []) as ->.
    { apply (f_equal List.length) in Ht. rewrite length_app in Ht.
      destruct ts; [done | simpl in Ht; lia]. }
    done.
Qed.

(** C4, as amended. There is no in-flight guard. Let an invocation from
    the latest render be followed, after any passing of time and firing of
    timers, by a second one, again from the latest render, and let the
    timers run out: they do, and the remote calls started are those of
    before, one for each submission pending in the first render, and one
    for each submission pending in the second render. The second invocation
    changes nothing only when its own render shows nothing pending. *)
Theorem sync_overlap (w : World) (between : list Event) :
  Forall passive between →
  let w1 := syncNow w in
  let w2 := run between w1 in
  let w3 := syncNow w2 in
  let w4 := settle (total_weight w3) w3 in
  timers w4 = [] ∧
  apiCalls w4 ≡ₚ ledger w ++ pending_ids (hooks w) ++ pending_ids (hooks w2) ∧
  (w3 = w2 ↔ pending_ids (hooks w2) = []).
Proof.
  intros Hpassive w1 w2 w3 w4.
  assert (Hdone : timers w4 = []) by by apply settle_done.
  split; [done|]. split.
  - assert (Hl : ledger w4 = apiCalls w4).
    { unfold ledger. rewrite Hdone. apply app_nil_r. }
    rewrite <- Hl. subst w4 w3 w2 w1.
    rewrite settle_ledger, syncNow_ledger, run_passive_ledger by done.
    by rewrite syncNow_ledger, <- app_assoc.
  - symmetry. apply syncNow_noop_iff.
Qed.

Lemma sync_overlap_witness :
  let one := OfflineSubmission.mk "1" emptyForm 1 pending in
  let two := OfflineSubmission.mk "2" emptyForm 2 pending in
  let w := quiet 1000 (mkHooks emptyForm ∅ false [] true [one; two]) in
  let w3 := syncNow (run [Elapse 500] (syncNow w)) in
  apiCalls (settle (total_weight w3) w3) ≡ₚ ["1"; "2"; "2"].
Proof.
  intros one two w w3.
  apply (sync_overlap w [Elapse 500]). repeat constructor.
Defined.

(** C4, as stated, fails. Two submissions are pending and Sync Now is
    clicked; half a second later, with the first remote call in flight, it
    is clicked again. The second click is not ignored, and by the time the
    timers have run out the remote call for submission "2" has been
    started twice. *)
Lemma sync_overlap_processes_twice :
  let one := OfflineSubmission.mk "1" emptyForm 1 pending in
  let two := OfflineSubmission.mk "2" emptyForm 2 pending in
  let w := quiet 1000 (mkHooks emptyForm ∅ false [] true [one; two]) in
  let w2 := run [SyncNow; Elapse 500] w in
  let w3 := dispatch SyncNow w2 in
  statuses w2 = [("1", syncing); ("2", pending)] ∧
  timers w2 =
    [mkTimer 6000 (ExpireToast "1000");
     mkTimer 2000 (ResumeSync (hooks w) one [two])] ∧
  w3 ≠ w2 ∧
  timers (settle 20 w3) = [] ∧
  apiCalls (settle 20 w3) = ["1"; "2"; "2"].
Proof.
  repeat split; try reflexivity.
  intros H. apply (f_equal apiCalls) in H. vm_compute in H. discriminate.
Qed.

(** ** What one synchronisation leaves behind *)

(** The timer set after the loop writes back the list of the render that
    started the synchronisation, less the entries that were [synced] in
    that render. *)
Lemma sync_purge_hooks r w :
  offlineSubmissions (hooks (exec (sync_purge r) w)) =
    filter (λ s, OfflineSubmission.status s ≠ synced) (offlineSubmissions r).
Proof. by destruct w as [h ls [] c n o ts api rnd d]. Qed.

(** Every write of the loop is the list of that same render with one
    status changed. *)
Lemma sync_resume_hooks r submission rest w :
  offlineSubmissions (hooks (exec (sync_resume r submission rest) w)) =
    match rest with
    | [] => mark synced (OfflineSubmission.id submission) (offlineSubmissions r)
    | next :: _ => mark syncing (OfflineSubmission.id next) (offlineSubmissions r)
    end.
Proof. by destruct rest, w as [h ls [] c n o ts api rnd d]. Qed.

Lemma syncNow_in_flight w :
  filter writer (timers w) = [] →
  pending_ids (hooks w) ≠ [] →
  in_flight (hooks w) (syncNow w).
Proof.
  intros Hw Hp. left. unfold syncNow, syncOfflineSubmissions, pending_ids in *.
  destruct (filter _ (offlineSubmissions (hooks w))) as [|s rest]; [done|].
  exists (mkTimer (now w + 1000) (ResumeSync (hooks w) s rest)).
  split; [|done].
  destruct w as [h ls [] c n o ts api rnd d]; simpl in *;
    by rewrite !filter_app, Hw.
Qed.

Lemma fire_in_flight r w w' :
  in_flight r w → fire w = Some w' → in_flight r w'.
Proof.
  unfold fire.
  destruct (next_timer (timers w)) as [[t rest]|] eqn:Hn; [|done].
  intros HJ [= <-]. apply next_timer_Permutation in Hn.
  assert (Hf : filter writer (timers w) ≡ₚ filter writer (t :: rest))
    by by rewrite Hn.
  destruct t as [due cb]. unfold in_flight in *.
  destruct cb as [id|r' s rest'|r'|r'].
  - rewrite filter_cons_False in Hf by (by intros []).
    destruct w as [h ls q c n o ts api rnd d]; simpl in *.
    destruct HJ as [(t & Ht & Hr)|[Ht Hs]]; rewrite Ht in Hf.
    + left. exists t. split; [|done].
      symmetry. by apply Permutation_singleton_l.
    + right. split; [|done]. symmetry. by apply Permutation_nil_l.
  - rewrite filter_cons_True in Hf by done.
    destruct HJ as [(t & Ht & Hr)|[Ht Hs]]; rewrite Ht in Hf.
    2:{ by apply Permutation_nil_cons in Hf. }
    apply Permutation_singleton_l in Hf. injection Hf as -> Hrest.
    simpl in Hr. subst r'. left.
    destruct rest' as [|s' rest'].
    + exists (mkTimer (N.max (now w) due + 3000) (PurgeSynced r)).
      split; [|done].
      destruct w as [h ls [] c n o ts api rnd d]; simpl in *;
        by rewrite !filter_app, <- Hrest.
    + exists (mkTimer (N.max (now w) due + 1000) (ResumeSync r s' rest')).
      split; [|done].
      destruct w as [h ls [] c n o ts api rnd d]; simpl in *;
        by rewrite !filter_app, <- Hrest.
  - rewrite filter_cons_True in Hf by done.
    destruct HJ as [(t & Ht & Hr)|[Ht Hs]]; rewrite Ht in Hf.
    2:{ by apply Permutation_nil_cons in Hf. }
    apply Permutation_singleton_l in Hf. injection Hf as -> Hrest.
    simpl in Hr. subst r'. right.
    destruct w as [h ls [] c n o ts api rnd d]; simpl in *; done.
  - rewrite filter_cons_False in Hf by (by intros []).
    destruct w as [h ls q c n o ts api rnd d].
    unfold exec, run_callback, submit_resume, try_finally, try_catch, mbind,
      M_bind, Math_random_gt_03; simpl in *.
    destruct HJ as [(t & Ht & Hr)|[Ht Hs]]; rewrite Ht in Hf.
    + left. exists t. split; [|done].
      apply Permutation_singleton_l in Hf.
      destruct (rnd d); simpl; by rewrite filter_app, <- Hf.
    + right. apply Permutation_nil_l in Hf.
      destruct (rnd d); simpl; by rewrite filter_app, <- Hf.
Qed.

Lemma settle_in_flight r n : ∀ w, in_flight r w → in_flight r (settle n w).
Proof.
  induction n as [|n IH]; intros w HJ; simpl; [done|].
  destruct (fire w) as [w'|] eqn:Hf; [|done].
  eauto using fire_in_flight.
Qed.

(** X16. Whatever is pending, a synchronisation that is left alone ends,
    and it leaves the list of the render it started from, less the entries
    that were [synced] already: everything that was pending is in the list
    again, and is pending. *)
Lemma sync_restores_render (w : World) :
  filter writer (timers w) = [] →
  pending_ids (hooks w) ≠ [] →
  let final := settle (total_weight (syncNow w)) (syncNow w) in
  timers final = [] ∧
  offlineSubmissions (hooks final) = purged (hooks w) ∧
  (quotaExceeded final = false → localStorage final = Some (purged (hooks w))) ∧
  (∀ s, s ∈ offlineSubmissions (hooks w) →
        OfflineSubmission.status s = pending →
        s ∈ offlineSubmissions (hooks final)).
Proof.
  intros Hw Hp final.
  assert (Hdone : timers final = []) by by apply settle_done.
  split; [done|].
  destruct (settle_in_flight (hooks w) (total_weight (syncNow w)) (syncNow w))
    as [(t & Ht & _)|(_ & Hs & Hl)]; [by apply syncNow_in_flight| |].
  { fold final in Ht. by rewrite Hdone in Ht. }
  fold final in Hs, Hl. split; [done|]. split; [done|].
  intros s Hin Hst. rewrite Hs. apply list_elem_of_filter.
  split; [congruence | done].
Qed.

(** C1 at an input where it fails. Two submissions are pending and Sync
    Now is clicked. When the loop is over, three notifications have been
    emitted (the announcement and one per outcome), but only the second
    submission is [synced]: the first is [pending] again. When all timers
    have fired, the three-second window long over, both submissions are in
    the list, with status [pending], and so is the persisted copy. *)
Theorem sync_two_pending :
  let one := OfflineSubmission.mk "1" emptyForm 1 pending in
  let two := OfflineSubmission.mk "2" emptyForm 2 pending in
  let w := quiet 1000 (mkHooks emptyForm ∅ false [] true [one; two]) in
  let over := run [SyncNow; TimerFires; TimerFires] w in
  let final := settle 10 over in
  statuses over = [("1", pending); ("2", synced)] ∧
  map Toast.type (toasts (hooks over)) = [info; success; success] ∧
  now over = 3000 ∧
  (∃ r, timers over =
     [mkTimer 6000 (ExpireToast "1000"); mkTimer 7000 (ExpireToast "2000");
      mkTimer 8000 (ExpireToast "3000"); mkTimer 6000 (PurgeSynced r)]) ∧
  timers final = [] ∧
  now final = 8000 ∧
  offlineSubmissions (hooks final) = [one; two] ∧
  localStorage final = Some [one; two].
Proof. repeat split; try reflexivity. eexists. reflexivity. Qed.

(** C2 at an input where it fails. One submission is pending and Sync Now
    is clicked: its status goes from [pending] to [syncing], to [synced]
    when the remote call is over, and three seconds later, with no retry,
    back to [pending]. *)
Theorem sync_status_regresses :
  let one := OfflineSubmission.mk "1" emptyForm 1 pending in
  let w := quiet 1000 (mkHooks emptyForm ∅ false [] true [one]) in
  statuses w = [("1", pending)] ∧
  statuses (run [SyncNow] w) = [("1", syncing)] ∧
  statuses (run [SyncNow; TimerFires] w) = [("1", synced)] ∧
  now (run [SyncNow; TimerFires] w) = 2000 ∧
  statuses (run [SyncNow; TimerFires; TimerFires] w) = [("1", pending)] ∧
  now (run [SyncNow; TimerFires; TimerFires] w) = 5000 ∧
  timers (run [SyncNow; TimerFires; TimerFires] w)
    = [mkTimer 6000 (ExpireToast "1000"); mkTimer 7000 (ExpireToast "2000")] ∧
  localStorage (run [SyncNow; TimerFires; TimerFires] w) = Some [one].
Proof. repeat split; reflexivity. Qed.

(** X15. The listeners of the [online] and [offline] events belong to the
    first render, whose list is empty: they record the new connectivity and
    never start a synchronisation, whatever is pending. *)
Lemma network_event_only_sets_isOnline (online : bool) (w : World) :
  let w' := dispatch (Network online) w in
  isOnline (hooks w') = online ∧
  offlineSubmissions (hooks w') = offlineSubmissions (hooks w) ∧
  toasts (hooks w') = toasts (hooks w) ∧
  timers w' = timers w ∧
  apiCalls w' = apiCalls w ∧
  localStorage w' = localStorage w.
Proof. destruct w, online; repeat split; reflexivity. Qed.

(** * Further properties *)

(** ** Loading the stored submissions *)

(** X1. What [saveOfflineSubmissions] has stored, the effect of a later
    page load reads back: after a reload and the mount effect, the list
    in memory is the list that was saved, whatever the hooks held before. *)
Theorem load_after_save (l : list OfflineSubmission.t) (w : World) :
  quotaExceeded w = false →
  let saved := exec (saveOfflineSubmissions l) w in
  offlineSubmissions (hooks (exec loadOfflineSubmissions saved)) = l ∧
  offlineSubmissions (hooks (dispatch Mounted (reload saved))) = l ∧
  console (dispatch Mounted (reload saved)) = [].
Proof.
  intros Hq. destruct w as [h ls q c n o ts api rnd d].
  simpl in Hq. subst q. done.
Qed.

Lemma load_after_save_witness :
  let one := OfflineSubmission.mk "1" emptyForm 1 pending in
  let two := OfflineSubmission.mk "2" emptyForm 2 synced in
  let saved := exec (saveOfflineSubmissions [one; two])
                 (quiet 1000 initialHooks) in
  offlineSubmissions (hooks (dispatch Mounted (reload saved))) = [one; two].
Proof.
  intros one two saved.
  apply (load_after_save [one; two] (quiet 1000 initialHooks)). reflexivity.
Defined.

(** X2. The mount effect copies [navigator.onLine] into [isOnline] and, when
    the storage holds a list, makes it the list in memory. When the key is
    missing the list in memory stays as it is and nothing is logged. The
    form, the errors, the notifications, the timers and the storage are not
    touched in either case. *)
Theorem mount_effect (w : World) :
  let w' := dispatch Mounted w in
  isOnline (hooks w') = onLine w ∧
  offlineSubmissions (hooks w') =
    default (offlineSubmissions (hooks w)) (localStorage w) ∧
  formData (hooks w') = formData (hooks w) ∧
  errors (hooks w') = errors (hooks w) ∧
  toasts (hooks w') = toasts (hooks w) ∧
  isSubmitting (hooks w') = isSubmitting (hooks w) ∧
  localStorage w' = localStorage w ∧
  timers w' = timers w ∧
  console w' = console w.
Proof. destruct w as [h [l|] q c n o ts api rnd d]; done. Qed.

(** X3. A submission enqueued while the storage refuses writes is in memory
    only: a reload brings back the list that was stored before, without
    it. *)
Theorem enqueue_unsaved_lost_on_reload (data : FormData) (w : World) :
  quotaExceeded w = true →
  write_through w →
  let w' := enqueue data w in
  List.length (offlineSubmissions (hooks w'))
    = S (List.length (offlineSubmissions (hooks w))) ∧
  localStorage w' = localStorage w ∧
  offlineSubmissions (hooks (dispatch Mounted (reload w')))
    = offlineSubmissions (hooks w).
Proof.
  intros Hq Hwt. destruct w as [h [l|] q c n o ts api rnd d];
    simpl in *; subst; simpl; rewrite ?length_app; simpl;
    repeat split; try done; lia.
Qed.

Lemma enqueue_unsaved_lost_on_reload_witness :
  let w := mkWorld initialHooks None true [] 1000 false [] [] (λ _, true) 0 in
  offlineSubmissions (hooks (dispatch Mounted (reload (enqueue emptyForm w))))
  = [].
Proof.
  intros w. apply (enqueue_unsaved_lost_on_reload emptyForm w); reflexivity.
Defined.

(** ** Typing into the form *)

Lemma get_set_field name value fd :
  name ∈ fieldNames → get_field name (set_field name value fd) = Some value.
Proof.
  unfold fieldNames. rewrite !elem_of_cons, elem_of_nil.
  intros [->|[->|[->|[->|[->|[->|[->|[]]]]]]]]; reflexivity.
Qed.

Lemma get_set_field_other name other value fd :
  other ≠ name → get_field other (set_field name value fd) = get_field other fd.
Proof.
  intros Hne. unfold set_field, get_field.
  repeat (case_decide; subst; simpl; try done).
Qed.

(** X4. [handleInputChange] writes the value into the field the input is
    named after and into no other, starting from the form as it is now, not
    as the render saw it: of two changes made from one render both are kept.
    It leaves the submissions, the notifications, the timers and the
    storage alone. *)
Theorem handleInputChange_fields
  (r : Hooks) (name value name2 value2 : string) (w : World) :
  name ∈ fieldNames →
  let w1 := exec (handleInputChange r name value) w in
  let w2 := exec (handleInputChange r name2 value2) w1 in
  get_field name (formData (hooks w1)) = Some value ∧
  (∀ other, other ≠ name →
     get_field other (formData (hooks w1))
       = get_field other (formData (hooks w))) ∧
  formData (hooks w2)
    = set_field name2 value2 (set_field name value (formData (hooks w))) ∧
  (name2 ≠ name → get_field name (formData (hooks w2)) = Some value) ∧
  offlineSubmissions (hooks w1) = offlineSubmissions (hooks w) ∧
  toasts (hooks w1) = toasts (hooks w) ∧
  timers w1 = timers w ∧
  localStorage w1 = localStorage w.
Proof.
  intros Hname w1 w2.
  assert (H1 : formData (hooks w1) = set_field name value (formData (hooks w))).
  { subst w1. unfold handleInputChange, exec, mbind, M_bind. simpl.
    destruct (errors r !! name) as [msg|]; [destruct (falsy msg)|]; done. }
  assert (H2 : formData (hooks w2)
               = set_field name2 value2 (formData (hooks w1))).
  { subst w2. unfold handleInputChange, exec, mbind, M_bind. simpl.
    destruct (errors r !! name2) as [msg|]; [destruct (falsy msg)|]; done. }
  rewrite H2, H1.
  split; [by apply get_set_field|].
  split; [intros other Hne; by apply get_set_field_other|].
  split; [done|].
  split; [intros Hne; rewrite get_set_field_other by done;
          by apply get_set_field|].
  subst w1. unfold handleInputChange, exec, mbind, M_bind. simpl.
  destruct (errors r !! name) as [msg|]; [destruct (falsy msg)|];
    by destruct w.
Qed.

Lemma handleInputChange_fields_witness :
  let w := quiet 1000 initialHooks in
  let w1 := exec (handleInputChange (hooks w) "email" "a@b.co") w in
  let w2 := exec (handleInputChange (hooks w) "city" "Oslo") w1 in
  email (formData (hooks w2)) = "a@b.co" ∧ city (formData (hooks w2)) = "Oslo".
Proof.
  intros w w1 w2.
  destruct (handleInputChange_fields (hooks w) "email" "a@b.co" "city" "Oslo" w)
    as (_ & _ & H & _).
  { unfold fieldNames. set_solver. }
  fold w1 w2 in H. by rewrite H.
Defined.

Lemma handleInputChange_errors r name value w :
  errors (hooks (exec (handleInputChange r name value) w)) =
    match errors r !! name with
    | Some msg =>
        if falsy msg then errors (hooks w)
        else <[name := ""]> (errors (hooks w))
    | None => errors (hooks w)
    end.
Proof.
  unfold handleInputChange, exec, mbind, M_bind. simpl.
  destruct (errors r !! name) as [msg|]; [destruct (falsy msg)|];
    by destruct w.
Qed.

(** X5. A submit that validation rejects keeps the form as typed. After it,
    typing into a field that has a message blanks that message, the entry
    staying in the mapping, and changes the message of no other field;
    typing into a field without a message changes nothing in the mapping. *)
Theorem handleInputChange_after_rejection
  (r : Hooks) (name value : string) (w : World) :
  newErrors (formData r) ≠ ∅ →
  let w1 := exec (handleSubmit r) w in
  let w2 := exec (handleInputChange (hooks w1) name value) w1 in
  formData (hooks w1) = formData (hooks w) ∧
  errors (hooks w1) = newErrors (formData r) ∧
  (is_Some (newErrors (formData r) !! name) →
   errors (hooks w2) !! name = Some "") ∧
  (newErrors (formData r) !! name = None →
   errors (hooks w2) = newErrors (formData r)) ∧
  (∀ other, other ≠ name →
     errors (hooks w2) !! other = newErrors (formData r) !! other) ∧
  errors (hooks w2) ≠ ∅.
Proof.
  intros Hne w1 w2.
  assert (H1 : errors (hooks w1) = newErrors (formData r)).
  { subst w1. rewrite handleSubmit_invalid by done. by destruct w. }
  assert (Hmsg : ∀ msg, newErrors (formData r) !! name = Some msg →
                        falsy msg = false).
  { intros msg.
    destruct (decide (name = "firstName")) as [->|];
      [rewrite newErrors_firstName; destruct (falsy _); by intros [= <-]|].
    destruct (decide (name = "lastName")) as [->|];
      [rewrite newErrors_lastName; destruct (falsy _); by intros [= <-]|].
    destruct (decide (name = "email")) as [->|];
      [rewrite newErrors_email; destruct (falsy _); [by intros [= <-]|];
       destruct (test _ _); by intros [= <-]|].
    by rewrite newErrors_other. }
  subst w2. rewrite handleInputChange_errors, H1.
  split; [subst w1; rewrite handleSubmit_invalid by done; by destruct w|].
  split; [done|]. split; [|split; [|split]].
  - intros [msg Hm]. rewrite Hm, (Hmsg _ Hm). apply lookup_insert_eq.
  - by intros ->.
  - intros other Ho. destruct (newErrors (formData r) !! name) as [msg|];
      [|done].
    rewrite (Hmsg _ eq_refl). by apply lookup_insert_ne.
  - destruct (newErrors (formData r) !! name) as [msg|]; [|done].
    rewrite (Hmsg _ eq_refl). apply insert_non_empty.
Qed.

Lemma handleInputChange_after_rejection_witness :
  let r := mkHooks emptyForm ∅ false [] true [] in
  let w1 := exec (handleSubmit r) (quiet 1000 r) in
  let w2 := exec (handleInputChange (hooks w1) "firstName" "A") w1 in
  errors (hooks w2) !! "firstName" = Some "" ∧
  errors (hooks w2) !! "lastName" = Some "Last name is required".
Proof.
  intros r w1 w2.
  destruct (handleInputChange_after_rejection r "firstName" "A" (quiet 1000 r))
    as (_ & _ & Hb & _ & Ho & _).
  { vm_compute. discriminate. }
  fold w1 w2 in Hb, Ho. split.
  - apply Hb. by eexists.
  - by rewrite Ho.
Defined.

(** ** Submitting while online *)

(** X6. Online, with a form that passes validation and no timer waiting,
    a submit announces itself, disables the button and waits two seconds;
    then, on success, it resets the form and emits a [success]
    notification, and otherwise keeps the form as typed and emits an
    [error] notification. Either way the button is enabled again and the
    offline queue and the storage are as before: a submission that failed
    online is not queued. *)
Theorem submit_online (w : World) :
  let fd := formData (hooks w) in
  isOnline (hooks w) = true →
  isSubmitting (hooks w) = false →
  trim (firstName fd) ≠ "" →
  trim (lastName fd) ≠ "" →
  test emailPattern (email fd) = true →
  timers w = [] →
  let w1 := dispatch Submit w in
  let w2 := dispatch TimerFires w1 in
  isSubmitting (hooks w1) = true ∧
  formData (hooks w1) = fd ∧
  toasts (hooks w1)
    = toasts (hooks w) ++ [Toast.mk (pretty (now w)) info "Submitting form..."] ∧
  now w2 = now w + 2000 ∧
  isSubmitting (hooks w2) = false ∧
  offlineSubmissions (hooks w2) = offlineSubmissions (hooks w) ∧
  localStorage w2 = localStorage w ∧
  (if randomGt03 w (draws w)
   then formData (hooks w2) = emptyForm ∧
        toasts (hooks w2)
          = toasts (hooks w)
            ++ [Toast.mk (pretty (now w)) info "Submitting form...";
                Toast.mk (pretty (now w + 2000)) success
                  "Form submitted successfully! Welcome to the workspace!"]
   else formData (hooks w2) = fd ∧
        toasts (hooks w2)
          = toasts (hooks w)
            ++ [Toast.mk (pretty (now w)) info "Submitting form...";
                Toast.mk (pretty (now w + 2000)) error
                  "Submission failed. Please try again."]).
Proof.
  intros fd Hon Hsub H1 H2 H3 Hts w1 w2.
  assert (He : newErrors fd = ∅).
  { apply newErrors_empty_iff. auto using emailPattern_not_blank. }
  assert (Hw1 : w1 =
    exec (setIsSubmitting true;;
          try_catch
            (addToast info "Submitting form...";;
             setTimeout (ResumeSubmit (hooks w)) 2000)
            (λ _, try_finally (submit_catch (hooks w)) (setIsSubmitting false)))
      (exec (setErrors ∅) w)).
  { subst w1 fd. simpl. rewrite Hsub. unfold exec at 1.
    rewrite handleSubmit_eq, He, Hon. by rewrite bool_decide_eq_true_2. }
  subst w2. rewrite Hw1. clear Hw1 w1.
  destruct w as [h ls q c n o ts api rnd d]. simpl in *. subst ts.
  unfold fire. simpl.
  assert (Hlt : (n + 5000 <=? n + 2000) = false) by (apply N.leb_gt; lia).
  rewrite Hlt. simpl.
  unfold exec, submit_resume, try_finally, try_catch, mbind, M_bind,
    Math_random_gt_03. simpl.
  assert (Hmax : N.max n (n + 2000) = n + 2000) by lia. rewrite Hmax.
  destruct (rnd d); simpl; rewrite <- ?app_assoc; repeat split; done.
Qed.

Lemma submit_online_witness :
  let h := mkHooks (mkFormData "A" "B" "a@b.co" "" "" "" "") ∅ false [] true
             [] in
  let w := mkWorld h None false [] 1000 true [] [] (λ _, false) 0 in
  let w2 := run [Submit; TimerFires] w in
  formData (hooks w2) = formData h ∧
  map Toast.type (toasts (hooks w2)) = [info; error] ∧
  offlineSubmissions (hooks w2) = [].
Proof.
  intros h w w2.
  destruct (submit_online w) as (_ & _ & _ & _ & _ & Hq & _ & Hf & Ht);
    [reflexivity | reflexivity | vm_compute; discriminate
    | vm_compute; discriminate | reflexivity | reflexivity |].
  change (dispatch TimerFires (dispatch Submit w)) with w2 in Hq, Hf, Ht.
  by rewrite Hf, Ht, Hq.
Defined.

(** ** Events, one at a time *)

Lemma fire_Some w w' :
  fire w = Some w' →
  ∃ t rest, timers w ≡ₚ t :: rest ∧
    w' = exec (run_callback (callback t))
           (mkWorld (hooks w) (localStorage w) (quotaExceeded w) (console w)
              (N.max (now w) (due t)) (onLine w) rest (apiCalls w)
              (randomGt03 w) (draws w)).
Proof.
  unfold fire.
  destruct (next_timer (timers w)) as [[t rest]|] eqn:Hn; [|done].
  intros [= <-]. exists t, rest. split; [|done].
  by apply next_timer_Permutation.
Qed.

Local Ltac open_world w :=
  destruct w as [[fd e sub toa onl offs] ls q c n o ts api rnd d];
  simpl in *.

Local Ltac unfold_handlers :=
  unfold exec, mount, loadOfflineSubmissions, updateOnlineStatus,
    handleInputChange, clearForm, syncOfflineSubmissions, run_callback,
    sync_resume, sync_purge, submit_resume, try_finally, try_catch, mbind,
    M_bind, mret, M_ret, Math_random_gt_03, localStorage_getItem,
    navigator_onLine;
  simpl.

(** ** Write-through *)

Lemma submit_store r w :
  quotaExceeded w = false →
  let w' := exec (handleSubmit r) w in
  (offlineSubmissions (hooks w') = offlineSubmissions (hooks w) ∧
   localStorage w' = localStorage w) ∨
  localStorage w' = Some (offlineSubmissions (hooks w')).
Proof.
  intros Hq. unfold exec. rewrite handleSubmit_eq.
  destruct w as [h ls q c n o ts api rnd d]. simpl in Hq. subst q.
  destruct (bool_decide _); [destruct (isOnline r)|]; simpl; auto.
Qed.

Lemma dispatch_write_through ev w :
  quotaExceeded w = false → write_through w → write_through (dispatch ev w).
Proof.
  intros Hq Hwt. unfold write_through in *. destruct ev; simpl.
  - open_world w. by destruct ls.
  - open_world w. by destruct online.
  - open_world w. unfold_handlers.
    destruct (e !! name) as [msg|]; [destruct (falsy msg)|]; done.
  - destruct (isSubmitting (hooks w)); [done|].
    destruct (submit_store (hooks w) w Hq) as [[Hl Hs]|Hs];
      [by rewrite Hl, Hs | by rewrite Hs].
  - by open_world w.
  - destruct (_ && _); [|done]. open_world w. subst q. unfold_handlers.
    destruct (filter _ offs); done.
  - destruct (fire w) as [w'|] eqn:Hf; [|done]. simpl.
    apply fire_Some in Hf as (t & rest & _ & ->).
    destruct t as [due [id|r s [|s' rest']|r|r]]; open_world w; subst q;
      unfold_handlers; try done.
    by destruct (rnd d).
  - by open_world w.
Qed.

Lemma handleSubmit_quotaExceeded r w :
  quotaExceeded (exec (handleSubmit r) w) = quotaExceeded w.
Proof.
  unfold exec. rewrite handleSubmit_eq.
  destruct w as [h ls [] c n o ts api rnd d];
    destruct (bool_decide _); try destruct (isOnline r); done.
Qed.

Lemma dispatch_quotaExceeded ev w :
  quotaExceeded (dispatch ev w) = quotaExceeded w.
Proof.
  destruct ev; simpl.
  - open_world w. by destruct ls.
  - open_world w. by destruct online.
  - open_world w. unfold_handlers.
    destruct (e !! name) as [msg|]; [destruct (falsy msg)|]; done.
  - destruct (isSubmitting (hooks w)); [done|].
    apply handleSubmit_quotaExceeded.
  - by open_world w.
  - destruct (_ && _); [|done]. open_world w. unfold_handlers.
    destruct (filter _ offs), q; done.
  - destruct (fire w) as [w'|] eqn:Hf; [|done]. simpl.
    apply fire_Some in Hf as (t & rest & _ & ->).
    destruct t as [due [id|r s [|s' rest']|r|r]]; open_world w;
      unfold_handlers; destruct q; try done.
    all: by destruct (rnd d).
  - by open_world w.
Qed.

(** X7. Write-through. As long as the storage takes the writes, the list
    in memory and the list in the storage agree after every event, if they
    agreed before: every handler that writes the one writes the other. They
    agree when the page has been loaded and the component mounted. *)
Theorem run_write_through (evs : list Event) (w : World) :
  quotaExceeded w = false →
  write_through (dispatch Mounted (reload w)) ∧
  (write_through w → write_through (run evs w)).
Proof.
  intros Hq. split.
  { unfold write_through. open_world w. by destruct ls. }
  revert w Hq. induction evs as [|ev evs IH]; intros w Hq Hwt; [done|].
  unfold run in *. simpl. apply IH.
  - by rewrite dispatch_quotaExceeded.
  - by apply dispatch_write_through.
Qed.

Lemma run_write_through_witness :
  let h := mkHooks (mkFormData "A" "B" "a@b.co" "" "" "" "") ∅ false [] false
             [] in
  let w := mkWorld h None false [] 1000 false [] [] (λ _, true) 0 in
  write_through
    (run [Submit; Network true; Elapse 10; SyncNow; TimerFires; TimerFires] w).
Proof.
  intros h w. by apply (run_write_through _ w).
Defined.

(** ** The status [failed] *)

Lemma no_failed_mark st id l :
  st ≠ failed → no_failed l → no_failed (mark st id l).
Proof.
  intros Hst. unfold no_failed, mark. induction 1 as [|s l Hs _ IH]; simpl;
    constructor; [|done].
  by destruct (decide _).
Qed.

Lemma no_failed_filter (P : OfflineSubmission.t → Prop)
  `{!∀ s, Decision (P s)} l :
  no_failed l → no_failed (filter P l).
Proof.
  unfold no_failed. rewrite !Forall_forall. intros Hl s Hs.
  apply list_elem_of_filter in Hs as [_ Hs]. auto.
Qed.

Local Ltac never_failed_step :=
  first
    [ done
    | progress intros
    | split
    | apply Forall_app
    | apply Forall_cons
    | apply Forall_nil
    | apply no_failed_mark
    | apply no_failed_filter
    | match goal with
      | H : Some _ = Some _ |- _ => injection H as <-
      | H : _ ∧ _ |- _ => destruct H
      | H : Forall _ (_ :: _) |- _ => apply Forall_cons in H as [? ?]
      end ].

Local Ltac never_failed_close := repeat never_failed_step; eauto.

Lemma handleSubmit_never_failed w :
  never_failed w → never_failed (exec (handleSubmit (hooks w)) w).
Proof.
  intros (Hl & Hs & Ht & Hm). unfold never_failed, exec.
  rewrite handleSubmit_eq.
  destruct (bool_decide _); [destruct (isOnline (hooks w))|];
    destruct w as [h ls [] c n o ts api rnd d]; simpl in *;
    never_failed_close.
Qed.

Lemma dispatch_never_failed ev w :
  never_failed w → never_failed (dispatch ev w).
Proof.
  intros Hnf. destruct ev; simpl.
  - destruct Hnf as (Hl & Hs & Ht & Hm). unfold never_failed.
    open_world w. destruct ls; simpl; never_failed_close.
  - unfold never_failed in *. open_world w. destruct online; done.
  - unfold never_failed in *. open_world w. unfold_handlers.
    destruct (e !! name) as [msg|]; [destruct (falsy msg)|]; done.
  - destruct (isSubmitting (hooks w)); [done|].
    by apply handleSubmit_never_failed.
  - unfold never_failed in *. by open_world w.
  - destruct (_ && _); [|done]. unfold never_failed in *.
    open_world w. unfold_handlers.
    destruct Hnf as (Hl & Hs & Ht & Hm).
    destruct (filter _ offs), q; simpl; never_failed_close.
  - destruct (fire w) as [w'|] eqn:Hf; [|done]. simpl.
    apply fire_Some in Hf as (t & rest & Hp & ->).
    destruct Hnf as (Hl & Hs & Ht & Hm). rewrite Hp in Ht.
    apply Forall_cons in Ht as [Ht Hrest]. unfold never_failed.
    destruct t as [due [id|r s [|s' rest']|r|r]]; open_world w;
      unfold_handlers; destruct q; simpl; try destruct (rnd d); simpl;
      never_failed_close.
    all: rewrite Forall_forall in *; intros toast [_ Hin]%list_elem_of_filter;
      auto.
  - unfold never_failed in *. by open_world w.
Qed.

(** X8. The status [failed] is never given: if no list that is shown,
    stored or waiting to be written has a [failed] entry, none has after any
    sequence of events, and no notification ever reports a failed
    synchronisation. The [catch] block of the synchronisation loop is not
    reached. *)
Theorem run_never_failed (evs : list Event) (w : World) :
  never_failed w →
  never_failed (run evs w) ∧
  Forall (λ s, OfflineSubmission.status s ≠ failed)
    (offlineSubmissions (hooks (run evs w))).
Proof.
  intros Hnf. assert (H : never_failed (run evs w)).
  { revert w Hnf. induction evs as [|ev evs IH]; intros w Hnf; [done|].
    unfold run in *. simpl. by apply IH, dispatch_never_failed. }
  split; [done|]. by destruct H.
Qed.

Lemma run_never_failed_witness :
  let one := OfflineSubmission.mk "1" emptyForm 1 pending in
  let w := quiet 1000 (mkHooks emptyForm ∅ false [] true [one]) in
  Forall (λ s, OfflineSubmission.status s ≠ failed)
    (offlineSubmissions (hooks (run [SyncNow; TimerFires; TimerFires] w))).
Proof.
  intros one w. apply (run_never_failed _ w).
  unfold never_failed, no_failed. simpl. repeat split; repeat constructor.
  - discriminate.
  - intros l [= <-]. repeat constructor. discriminate.
Defined.

(** ** What the timers clear away *)

Lemma handleSubmit_expiring w :
  expiring w → expiring (exec (handleSubmit (hooks w)) w).
Proof.
  unfold expiring, exec. rewrite handleSubmit_eq. intros He.
  destruct (bool_decide _); [destruct (isOnline (hooks w))|];
    destruct w as [h ls [] c n o ts api rnd d]; simpl in *;
    intros toast; rewrite ?map_app, !elem_of_app; simpl;
    rewrite ?elem_of_cons, ?elem_of_nil;
    (intros [Hin|[->|[]]]; simpl; auto 10).
Qed.

Lemma dispatch_expiring ev w : expiring w → expiring (dispatch ev w).
Proof.
  intros He. destruct ev; simpl.
  - unfold expiring in *. open_world w. by destruct ls.
  - unfold expiring in *. open_world w. by destruct online.
  - unfold expiring in *. open_world w. unfold_handlers.
    destruct (e !! name) as [msg|]; [destruct (falsy msg)|]; done.
  - destruct (isSubmitting (hooks w)); [done|].
    by apply handleSubmit_expiring.
  - unfold expiring in *. by open_world w.
  - destruct (_ && _); [|done]. unfold expiring in *.
    open_world w. unfold_handlers.
    destruct (filter _ offs), q; simpl; [done|done|..];
      intros toast; rewrite ?map_app, !elem_of_app; simpl;
      rewrite ?elem_of_cons, ?elem_of_nil;
      (intros [Hin|[->|[]]]; simpl; auto 10).
  - destruct (fire w) as [w'|] eqn:Hf; [|done]. simpl.
    apply fire_Some in Hf as (t & rest & Hp & ->).
    assert (Hrest : ∀ toast, toast ∈ toasts (hooks w) →
              ExpireToast (Toast.id toast) = callback t ∨
              ExpireToast (Toast.id toast) ∈ map callback rest).
    { intros toast Hin. apply He in Hin. rewrite Hp in Hin. simpl in Hin.
      apply elem_of_cons in Hin as [?|?]; auto. }
    clear He Hp. unfold expiring.
    destruct t as [due [id|r s rest'|r|r]]; open_world w; unfold_handlers.
    + intros toast Hf. apply list_elem_of_filter in Hf as [Hid Hf].
      destruct (Hrest _ Hf) as [[= Heq]|?]; [congruence | done].
    + destruct rest' as [|s' rest'], q; simpl; intros toast;
        rewrite ?map_app, ?elem_of_app; simpl;
        rewrite ?elem_of_cons, ?elem_of_nil;
        (intros [Hin|[->|[]]];
         [destruct (Hrest _ Hin) as [?|?]; [done | auto] | simpl; auto 10]).
    + destruct q; simpl; intros toast Hin;
        destruct (Hrest _ Hin) as [?|?]; done.
    + destruct (rnd d); simpl; intros toast;
        rewrite ?map_app, ?elem_of_app; simpl;
        rewrite ?elem_of_cons, ?elem_of_nil;
        (intros [Hin|[->|[]]];
         [destruct (Hrest _ Hin) as [?|?]; [done | auto] | simpl; auto 10]).
  - unfold expiring in *. by open_world w.
Qed.

Lemma settle_expiring n : ∀ w, expiring w → expiring (settle n w).
Proof.
  induction n as [|n IH]; intros w He; simpl; [done|].
  destruct (fire w) as [w'|] eqn:Hf; [|done].
  apply IH. pose proof (dispatch_expiring TimerFires w He) as H.
  simpl in H. by rewrite Hf in H.
Qed.

(** X9. No notification stays. If every notification shown has its timer
    waiting, as when none is shown, this is still so after any sequence of
    events; and when the timers have run out, which they do, no
    notification is left. *)
Theorem toasts_all_expire (evs : list Event) (w : World) :
  expiring w →
  let w' := run evs w in
  let final := settle (total_weight w') w' in
  expiring w' ∧ timers final = [] ∧ toasts (hooks final) = [].
Proof.
  assert (Hrun : ∀ evs w, expiring w → expiring (run evs w)).
  { clear. intros evs. induction evs as [|ev evs IH]; intros w He; [done|].
    unfold run in *. simpl. by apply IH, dispatch_expiring. }
  intros He w' final.
  assert (He' : expiring w') by by apply Hrun.
  assert (Hdone : timers final = []) by by apply settle_done.
  split; [done|]. split; [done|].
  pose proof (settle_expiring (total_weight w') w' He') as Hf.
  fold final in Hf. unfold expiring in Hf. rewrite Hdone in Hf.
  destruct (toasts (hooks final)) as [|toast l]; [done|].
  specialize (Hf toast). simpl in Hf. set_solver.
Qed.

Lemma toasts_all_expire_witness :
  let w := run [Submit; SyncNow; Elapse 700; Submit]
             (quiet 1000 initialHooks) in
  toasts (hooks (settle (total_weight w) w)) = [].
Proof.
  intros w.
  apply (toasts_all_expire [Submit; SyncNow; Elapse 700; Submit]
           (quiet 1000 initialHooks)).
  intros toast Hin. inversion Hin.
Defined.

Lemma handleSubmit_awaiting w :
  isSubmitting (hooks w) = false →
  awaiting_submit w → awaiting_submit (exec (handleSubmit (hooks w)) w).
Proof.
  unfold awaiting_submit, exec. rewrite handleSubmit_eq. intros Hs Ha.
  destruct (bool_decide _); [destruct (isOnline (hooks w))|];
    destruct w as [h ls [] c n o ts api rnd d]; simpl in *;
    intros Htrue; try congruence.
  all: exists h; rewrite !map_app, !elem_of_app; simpl; set_solver.
Qed.

Lemma dispatch_awaiting ev w :
  awaiting_submit w → awaiting_submit (dispatch ev w).
Proof.
  intros Ha. destruct ev; simpl.
  - unfold awaiting_submit in *. open_world w. by destruct ls.
  - unfold awaiting_submit in *. open_world w. by destruct online.
  - unfold awaiting_submit in *. open_world w. unfold_handlers.
    destruct (e !! name) as [msg|]; [destruct (falsy msg)|]; done.
  - destruct (isSubmitting (hooks w)) eqn:Hs; [done|].
    by apply handleSubmit_awaiting.
  - unfold awaiting_submit in *. by open_world w.
  - destruct (_ && _); [|done]. unfold awaiting_submit in *.
    open_world w. unfold_handlers.
    destruct (filter _ offs), q; simpl; [done|done|..];
      intros Htrue; destruct (Ha Htrue) as [r Hr]; exists r;
      rewrite !map_app, !elem_of_app; auto.
  - destruct (fire w) as [w'|] eqn:Hf; [|done]. simpl.
    apply fire_Some in Hf as (t & rest & Hp & ->).
    assert (Hrest : isSubmitting (hooks w) = true →
              ∃ r, ResumeSubmit r = callback t ∨
                   ResumeSubmit r ∈ map callback rest).
    { intros Htrue. destruct (Ha Htrue) as [r Hr]. exists r.
      rewrite Hp in Hr. simpl in Hr.
      apply elem_of_cons in Hr as [?|?]; auto. }
    clear Ha Hp. unfold awaiting_submit.
    destruct t as [due [id|r s rest'|r|r]]; open_world w; unfold_handlers.
    + intros Htrue. destruct (Hrest Htrue) as [r0 [?|?]]; [done|]. by exists r0.
    + destruct rest' as [|s' rest'], q; simpl; intros Htrue;
        destruct (Hrest Htrue) as [r0 [?|?]]; try done; exists r0;
        rewrite ?map_app, ?elem_of_app; auto.
    + destruct q; simpl; intros Htrue;
        destruct (Hrest Htrue) as [r0 [?|?]]; try done; by exists r0.
    + destruct (rnd d); simpl; intros Htrue; congruence.
  - unfold awaiting_submit in *. by open_world w.
Qed.

Lemma settle_awaiting n : ∀ w, awaiting_submit w → awaiting_submit (settle n w).
Proof.
  induction n as [|n IH]; intros w Ha; simpl; [done|].
  destruct (fire w) as [w'|] eqn:Hf; [|done].
  apply IH. pose proof (dispatch_awaiting TimerFires w Ha) as H.
  simpl in H. by rewrite Hf in H.
Qed.

(** X10. The submit button is not left disabled. If [isSubmitting] holds
    only while the rest of a submit is waiting for its timer, as when it
    does not hold, this is still so after any sequence of events; and when
    the timers have run out, [isSubmitting] is [false]. *)
Theorem isSubmitting_released (evs : list Event) (w : World) :
  awaiting_submit w →
  let w' := run evs w in
  let final := settle (total_weight w') w' in
  awaiting_submit w' ∧ timers final = [] ∧ isSubmitting (hooks final) = false.
Proof.
  assert (Hrun : ∀ evs w, awaiting_submit w → awaiting_submit (run evs w)).
  { clear. intros evs. induction evs as [|ev evs IH]; intros w Ha; [done|].
    unfold run in *. simpl. by apply IH, dispatch_awaiting. }
  intros Ha w' final.
  assert (Ha' : awaiting_submit w') by by apply Hrun.
  assert (Hdone : timers final = []) by by apply settle_done.
  split; [done|]. split; [done|].
  pose proof (settle_awaiting (total_weight w') w' Ha') as Hf.
  fold final in Hf. unfold awaiting_submit in Hf. rewrite Hdone in Hf.
  destruct (isSubmitting (hooks final)); [|done].
  destruct (Hf eq_refl) as [r Hr]. simpl in Hr. set_solver.
Qed.

Lemma isSubmitting_released_witness :
  let h := mkHooks (mkFormData "A" "B" "a@b.co" "" "" "" "") ∅ false [] true
             [] in
  let w := run [Submit; Elapse 100; Submit] (quiet 1000 h) in
  isSubmitting (hooks w) = true ∧
  isSubmitting (hooks (settle (total_weight w) w)) = false.
Proof.
  intros h w. split; [reflexivity|].
  apply (isSubmitting_released [Submit; Elapse 100; Submit] (quiet 1000 h)).
  intros Htrue. discriminate.
Defined.

(** ** More on validation *)

Lemma all_chars_app p s1 s2 :
  all_chars p (s1 +:+ s2) = all_chars p s1 && all_chars p s2.
Proof.
  induction s1 as [|c s1 IH]; [done|].
  rewrite append_cons. simpl. by rewrite IH, andb_assoc.
Qed.

Lemma occurrences_app a s1 s2 :
  occurrences a (s1 +:+ s2) = (occurrences a s1 + occurrences a s2)%nat.
Proof.
  induction s1 as [|c s1 IH]; [done|].
  rewrite append_cons. simpl. rewrite IH. lia.
Qed.

Lemma length_append s1 s2 :
  String.length (s1 +:+ s2) = (String.length s1 + String.length s2)%nat.
Proof.
  induction s1 as [|c s1 IH]; [done|].
  rewrite append_cons. simpl. by rewrite IH.
Qed.

Lemma label_chars s :
  all_chars not_space_at s = true →
  all_chars (λ c, negb (is_white c)) s = true ∧ occurrences "@" s = 0%nat.
Proof.
  induction s as [|c s IH]; [done|]. simpl.
  intros [Hc Hs]%andb_true_iff. destruct (IH Hs) as [-> ->].
  unfold not_space_at in Hc. apply andb_true_iff in Hc as [-> Hat].
  by destruct (Ascii.eqb c "@").
Qed.

(** X11. The pattern of [validateForm] accepts exactly the addresses made of
    three non-empty runs of characters that are neither white space nor [@],
    the first and the second with one [@] between them and the second and
    the third with a [.] between them. An accepted address thus has no white
    space and exactly one [@], and a [.] somewhere after the [@]. *)
Theorem emailPattern_language (s : string) :
  (test emailPattern s = true ↔
   ∃ l d t, s = l +:+ "@" +:+ d +:+ "." +:+ t ∧ label l ∧ label d ∧ label t) ∧
  (test emailPattern s = true →
   all_chars (λ c, negb (is_white c)) s = true ∧
   occurrences "@" s = 1%nat ∧
   (1 ≤ occurrences "." s)%nat ∧
   (5 ≤ String.length s)%nat).
Proof.
  split; [apply emailPattern_spec|].
  intros (l & d & t & -> & [Hl Hla] & [Hd Hda] & [Ht Hta])%emailPattern_spec.
  destruct (label_chars _ Hla) as [Wl Al], (label_chars _ Hda) as [Wd Ad],
    (label_chars _ Hta) as [Wt At].
  rewrite !all_chars_app, !occurrences_app, Wl, Wd, Wt, Al, Ad, At.
  split; [done|]. split; [done|]. split.
  - assert (occurrences "." "." = 1%nat) as -> by reflexivity. lia.
  - rewrite !length_append. destruct l, d, t; try done. simpl. lia.
Qed.

Lemma emailPattern_language_witness :
  occurrences "@" "first.last@mail.example.org" = 1%nat.
Proof.
  apply (emailPattern_language "first.last@mail.example.org"). reflexivity.
Defined.

(** X12. A required field gets its "is required" message exactly when it
    consists of white space only (the empty string included); an e-mail
    gets "Please enter a valid email" exactly when it is not so and does not
    match the pattern. *)
Theorem required_iff_blank (fd : FormData) :
  (newErrors fd !! "firstName" = Some "First name is required" ↔
   all_chars is_white (firstName fd) = true) ∧
  (newErrors fd !! "lastName" = Some "Last name is required" ↔
   all_chars is_white (lastName fd) = true) ∧
  (newErrors fd !! "email" = Some "Email is required" ↔
   all_chars is_white (email fd) = true) ∧
  (newErrors fd !! "email" = Some "Please enter a valid email" ↔
   all_chars is_white (email fd) = false ∧
   test emailPattern (email fd) = false).
Proof.
  rewrite newErrors_firstName, newErrors_lastName, newErrors_email.
  rewrite <- !trim_empty, <- !falsy_iff.
  assert (Hf : all_chars is_white (email fd) = false
               ↔ falsy (trim (email fd)) = false).
  { rewrite <- !not_true_iff_false. by rewrite <- trim_empty, <- falsy_iff. }
  rewrite Hf.
  destruct (falsy (trim (firstName fd))), (falsy (trim (lastName fd))),
    (falsy (trim (email fd))), (test emailPattern (email fd));
    repeat split; intros; try done; try tauto; try (by destruct_and?).
Qed.

(** ** What the synchronisation writes *)

Lemma mark_projections st id l :
  map OfflineSubmission.id (mark st id l) = map OfflineSubmission.id l ∧
  map OfflineSubmission.data (mark st id l) = map OfflineSubmission.data l ∧
  map OfflineSubmission.timestamp (mark st id l)
    = map OfflineSubmission.timestamp l.
Proof.
  unfold mark. induction l as [|s l (IH1 & IH2 & IH3)]; [done|]. simpl.
  rewrite IH1, IH2, IH3. by destruct (decide _).
Qed.

Lemma mark_statuses st id l :
  map OfflineSubmission.status (mark st id l) =
    map (λ s, if decide (OfflineSubmission.id s = id) then st
              else OfflineSubmission.status s) l.
Proof.
  unfold mark. induction l as [|s l IH]; [done|]. simpl.
  rewrite IH. by destruct (decide _).
Qed.

(** X13. While its loop runs, a synchronisation changes statuses only:
    every list it writes, at the click and each time a remote call is over,
    has the ids, the data and the timestamps of the list of its render, in
    the same order, whatever the list in memory was; and the status it
    writes goes to every entry that has the id of the submission at hand,
    the other entries getting the status they had in the render. *)
Theorem sync_writes_statuses_only
  (r : Hooks) (submission : OfflineSubmission.t)
  (rest : list OfflineSubmission.t) (w : World) :
  let l := offlineSubmissions r in
  let l' := offlineSubmissions (hooks (exec (sync_resume r submission rest) w)) in
  let l'' := offlineSubmissions
               (hooks (exec (sync_loop r (submission :: rest)) w)) in
  map OfflineSubmission.id l' = map OfflineSubmission.id l ∧
  map OfflineSubmission.data l' = map OfflineSubmission.data l ∧
  map OfflineSubmission.timestamp l' = map OfflineSubmission.timestamp l ∧
  map OfflineSubmission.id l'' = map OfflineSubmission.id l ∧
  map OfflineSubmission.data l'' = map OfflineSubmission.data l ∧
  map OfflineSubmission.timestamp l'' = map OfflineSubmission.timestamp l ∧
  map OfflineSubmission.status l'' =
    map (λ s, if decide (OfflineSubmission.id s
                         = OfflineSubmission.id submission)
              then syncing else OfflineSubmission.status s) l ∧
  (rest = [] →
   map OfflineSubmission.status l' =
     map (λ s, if decide (OfflineSubmission.id s
                          = OfflineSubmission.id submission)
               then synced else OfflineSubmission.status s) l).
Proof.
  intros l l' l''.
  assert (H'' : l'' = mark syncing (OfflineSubmission.id submission) l).
  { subst l''. by destruct w as [h ls [] c n o ts api rnd d]. }
  subst l'. rewrite sync_resume_hooks, H''. clear H'' l''. fold l.
  destruct rest as [|next rest];
    repeat split; try apply mark_projections; try apply mark_statuses.
  all: first [done | intros _; apply mark_statuses].
Qed.

Lemma sync_writes_statuses_only_witness :
  let one := OfflineSubmission.mk "7" emptyForm 1 pending in
  let two := OfflineSubmission.mk "7" emptyForm 2 pending in
  let r := mkHooks emptyForm ∅ false [] true [one; two] in
  map OfflineSubmission.status
    (offlineSubmissions
       (hooks (exec (sync_resume r one []) (quiet 1000 initialHooks))))
  = [synced; synced].
Proof.
  intros one two r.
  destruct (sync_writes_statuses_only r one [] (quiet 1000 initialHooks))
    as (_ & _ & _ & _ & _ & _ & _ & H).
  by rewrite H.
Defined.

(** ** All the remote calls of a session *)

Lemma handleSubmit_ledger r w : ledger (exec (handleSubmit r) w) = ledger w.
Proof.
  unfold exec. rewrite handleSubmit_eq. unfold ledger, debts.
  destruct (bool_decide _); [destruct (isOnline r)|];
    destruct w as [h ls [] c n o ts api rnd d]; simpl;
    rewrite ?map_app, ?concat_app; simpl; by rewrite ?app_nil_r.
Qed.

Lemma dispatch_ledger ev w :
  ledger (dispatch ev w) ≡ₚ ledger w ++ requested [ev] w.
Proof.
  destruct ev; simpl; rewrite ?app_nil_r.
  - open_world w. by destruct ls.
  - open_world w. by destruct online.
  - open_world w. unfold_handlers.
    destruct (e !! name) as [msg|]; [destruct (falsy msg)|]; done.
  - destruct (isSubmitting (hooks w)); [done|]. by rewrite handleSubmit_ledger.
  - by open_world w.
  - destruct (bool_decide _) eqn:Hlen; simpl.
    + destruct (isOnline (hooks w)); simpl; rewrite ?app_nil_r; [|done].
      apply syncNow_ledger.
    + apply bool_decide_eq_false in Hlen. unfold pending_ids.
      destruct (offlineSubmissions (hooks w)); [|simpl in Hlen; lia].
      destruct (isOnline (hooks w)); simpl; by rewrite app_nil_r.
  - destruct (fire w) as [w'|] eqn:Hf; [|done]. by apply fire_ledger.
  - by open_world w.
Qed.

Lemma requested_no_sync evs : ∀ w,
  Forall (λ ev, ev ≠ SyncNow) evs → requested evs w = [].
Proof.
  induction evs as [|ev evs IH]; intros w Hno; [done|].
  apply Forall_cons in Hno as [Hev Hno]. simpl. rewrite IH by done.
  by destruct ev.
Qed.

(** X14. Over any sequence of events, the remote calls started, together
    with those that the synchronisations in flight have still to start, are
    those of before and, for each click on Sync Now while online, one for
    each submission pending in the list at that moment. When the timers
    have run out they have all been started. Without a click on Sync Now
    nothing is sent: neither a submit nor the return of the network starts a
    remote call for a queued submission. *)
Theorem all_remote_calls (evs : list Event) (w : World) :
  let w' := run evs w in
  let final := settle (total_weight w') w' in
  ledger w' ≡ₚ ledger w ++ requested evs w ∧
  apiCalls final ≡ₚ ledger w ++ requested evs w ∧
  (Forall (λ ev, ev ≠ SyncNow) evs → apiCalls final ≡ₚ ledger w).
Proof.
  intros w' final.
  assert (Hrun : ledger w' ≡ₚ ledger w ++ requested evs w).
  { subst w'. clear final. revert w.
    induction evs as [|ev evs IH]; intros w; simpl; [by rewrite app_nil_r|].
    unfold run in *. simpl. rewrite IH, dispatch_ledger. simpl.
    by rewrite app_nil_r, <- app_assoc. }
  assert (Hfinal : apiCalls final ≡ₚ ledger w ++ requested evs w).
  { rewrite <- Hrun, <- (settle_ledger (total_weight w') w'). fold final.
    assert (Hdone : timers final = []) by by apply settle_done.
    unfold ledger at 1. by rewrite Hdone, app_nil_r. }
  split; [done|]. split; [done|].
  intros Hno. rewrite Hfinal, requested_no_sync by done. by rewrite app_nil_r.
Qed.

Lemma all_remote_calls_witness :
  let one := OfflineSubmission.mk "1" emptyForm 1 pending in
  let w := quiet 1000 (mkHooks emptyForm ∅ false [] false [one]) in
  let w' := run [Network true; Submit; Elapse 5000; TimerFires] w in
  apiCalls (settle (total_weight w') w') ≡ₚ [].
Proof.
  intros one w w'.
  apply (all_remote_calls [Network true; Submit; Elapse 5000; TimerFires] w).
  repeat constructor; discriminate.
Defined.

Lemma sync_restores_render_witness :
  let one := OfflineSubmission.mk "1" emptyForm 1 pending in
  let two := OfflineSubmission.mk "2" emptyForm 2 synced in
  let w := quiet 1000 (mkHooks emptyForm ∅ false [] true [one; two]) in
  offlineSubmissions (hooks (settle (total_weight (syncNow w)) (syncNow w)))
  = [one].
Proof.
  intros one two w.
  destruct (sync_restores_render w) as (_ & H & _);
    [reflexivity | vm_compute; discriminate |].
  by rewrite H.
Defined.
